(** * SMS categorization API: text normalisation, amount and merchant
      extraction, and the categorize endpoint

    A shallow embedding of [app.py].  A Python [str] is a sequence of code
    points; here a text is a list of characters of the range U+0000..U+00FF
    (Rocq's [ascii], read as the code point of the same number), the part of
    Unicode on which the character tables used by the program ([str.lower],
    [str.split], the regular expression classes) are written out below.
    Pattern literals keep their code points, so that a pattern character
    outside that range is a character no text of the model contains. *)

From Stdlib Require Import Ascii String.
From Stdlib Require Import List Bool Arith NArith ZArith QArith Lia.
From Stdlib Require Import Floats.SpecFloat.
Import ListNotations.
Close Scope Q_scope.



(** ** Characters and strings *)

Definition str := list ascii.

Definition lit (s : string) : str := list_ascii_of_string s.
Arguments lit s%_string.

Definition ord (c : ascii) : N := N_of_ascii c.

Definition chr (n : N) : ascii := ascii_of_N n.

Definition in_range (lo hi : N) (c : ascii) : bool :=
  ((lo <=? ord c) && (ord c <=? hi))%N.

Definition is_code (n : N) (c : ascii) : bool := (ord c =? n)%N.

(** Characters with a lower-case mapping: A-Z, and the capital letters of
    U+00C0..U+00DE (the multiplication sign U+00D7 is not a letter). *)
Definition has_lower (c : ascii) : bool :=
  in_range 65 90 c || in_range 192 214 c || in_range 216 222 c.

Definition lower_char (c : ascii) : ascii :=
  if has_lower c then chr (ord c + 32) else c.

(** [str.lower()] *)
Definition lower (s : str) : str := map lower_char s.

(** [str.isspace()] on one character, which is also what [\s] matches and
    what [str.split()] splits on: tab, line feed, vertical tab, form feed,
    carriage return, the separators U+001C..U+001F, space, U+0085, U+00A0. *)
Definition isspace (c : ascii) : bool :=
  in_range 9 13 c || in_range 28 32 c || is_code 133 c || is_code 160 c.

(** What [\d] matches: the decimal digits. *)
Definition isdecimal (c : ascii) : bool := in_range 48 57 c.

Definition isalpha (c : ascii) : bool :=
  in_range 65 90 c || in_range 97 122 c
  || is_code 170 c || is_code 181 c || is_code 186 c
  || in_range 192 214 c || in_range 216 246 c || in_range 248 255 c.

(** Superscript digits and vulgar fractions: numeric without being decimal. *)
Definition isnumeric_other (c : ascii) : bool :=
  is_code 178 c || is_code 179 c || is_code 185 c || in_range 188 190 c.

Definition isalnum (c : ascii) : bool :=
  isalpha c || isdecimal c || isnumeric_other c.

(** What [\w] matches: alphanumerics and the underscore. *)
Definition isword (c : ascii) : bool := isalnum c || is_code 95 c.

(** ** Regular expressions

    The fragment of Python's [re] syntax that the program's patterns use.
    [(?:...)] is grouping only and has no node; the patterns have one capture
    group, group 1. *)

Inductive charclass := Digit | Space | Word.

Definition in_class (k : charclass) (c : ascii) : bool :=
  match k with
  | Digit => isdecimal c
  | Space => isspace c
  | Word => isword c
  end.

Inductive regex :=
| Eps
| Lit (cp : N)                     (* a literal character, by code point *)
| Class (k : charclass)            (* \d \s \w *)
| NegSet (ks : list charclass)     (* [^...] over classes *)
| Seq (a b : regex)
| Alt (a b : regex)                (* a|b, left first *)
| Opt (a : regex)                  (* a?, greedy *)
| Star (a : regex)                 (* a*, greedy *)
| Rep (n : nat) (a : regex)        (* a{n} *)
| Group (a : regex).               (* (a), capture group 1 *)

Definition Plus (a : regex) : regex := Seq a (Star a).

Fixpoint Lits (s : str) : regex :=
  match s with
  | [] => Eps
  | c :: s' => Seq (Lit (ord c)) (Lits s')
  end.

(** A state of the backtracking matcher: the text still to read and the
    current content of group 1. *)
Record mstate := MState { rest : str; grp : option str }.

Definition step_if (p : ascii -> bool) (st : mstate) : list mstate :=
  match rest st with
  | c :: s' => if p c then [MState s' (grp st)] else []
  | [] => []
  end.

(** The greedy loop of [a*]: another iteration first, then stop.  An
    iteration has to consume a character. *)
Fixpoint star_loop (body : mstate -> list mstate) (fuel : nat) (st : mstate)
  : list mstate :=
  match fuel with
  | O => [st]
  | S n =>
      flat_map (fun st' =>
                  if length (rest st') <? length (rest st)
                  then star_loop body n st' else [])
               (body st)
      ++ [st]
  end.

Fixpoint rep_loop (body : mstate -> list mstate) (n : nat) (st : mstate)
  : list mstate :=
  match n with
  | O => [st]
  | S n' => flat_map (rep_loop body n') (body st)
  end.

(** [run r st]: every way [r] matches a prefix of [rest st], in the order in
    which the backtracking matcher tries them. *)
Fixpoint run (r : regex) (st : mstate) : list mstate :=
  match r with
  | Eps => [st]
  | Lit cp => step_if (is_code cp) st
  | Class k => step_if (in_class k) st
  | NegSet ks => step_if (fun c => negb (existsb (fun k => in_class k c) ks)) st
  | Seq a b => flat_map (run b) (run a st)
  | Alt a b => run a st ++ run b st
  | Opt a => run a st ++ [st]
  | Star a => star_loop (run a) (length (rest st)) st
  | Rep n a => rep_loop (run a) n st
  | Group a =>
      map (fun st' =>
             MState (rest st')
                    (Some (firstn (length (rest st) - length (rest st'))
                                  (rest st))))
          (run a st)
  end.

(** The first match of [r] that starts at the head of [s]. *)
Definition match_here (r : regex) (s : str) : option mstate :=
  hd_error (run r (MState s None)).

(** [re.search(r, s)]: the first match at the leftmost position that has
    one; the value is the match object's [group(1)]. *)
Fixpoint re_search (r : regex) (s : str) : option (option str) :=
  match match_here r s with
  | Some st => Some (grp st)
  | None =>
      match s with
      | [] => None
      | _ :: s' => re_search r s'
      end
  end.

(** [re.sub(r, repl, s)] for a pattern whose matches consume text: the
    leftmost matches, not overlapping, are replaced by [repl]. *)
Fixpoint re_sub_from (r : regex) (repl : str) (skip : nat) (s : str) : str :=
  match s with
  | [] => []
  | c :: s' =>
      match skip with
      | S k => re_sub_from r repl k s'
      | O =>
          match match_here r s with
          | Some st =>
              match length s - length (rest st) with
              | O => c :: re_sub_from r repl 0 s'
              | S k => repl ++ re_sub_from r repl k s'
              end
          | None => c :: re_sub_from r repl 0 s'
          end
      end
  end.

Definition re_sub (r : regex) (repl : str) (s : str) : str :=
  re_sub_from r repl 0 s.

(** ** The normalizer *)

Definition flush (cur : str) : list str :=
  match cur with [] => [] | _ => [cur] end.

(** [str.split()]: the maximal runs of characters that are not whitespace;
    [cur] is the run being read. *)
Fixpoint split_from (cur : str) (s : str) : list str :=
  match s with
  | [] => flush cur
  | c :: s' =>
      if isspace c then flush cur ++ split_from [] s'
      else split_from (cur ++ [c]) s'
  end.

Definition split (s : str) : list str := split_from [] s.

(** [sep.join(ws)] *)
Fixpoint join (sep : str) (ws : list str) : str :=
  match ws with
  | [] => []
  | [w] => w
  | w :: ws' => w ++ sep ++ join sep ws'
  end.

Definition space : ascii := " "%char.

(** The pattern [[^\w\s]]. *)
Definition not_word_or_space : regex := NegSet [Word; Space].

Definition preprocess_text (text : str) : str :=
  let text := lower text in
  let text := re_sub not_word_or_space [space] text in
  let text := join [space] (split text) in
  text.


(** ** Results of operations that can raise *)

Inductive exn :=
| ValueError
| AttributeError
| TypeError
| IndexError
| OtherError (msg : string).

Inductive result (A : Type) :=
| Ok (a : A)
| Raise (e : exn).

Arguments Ok {A} a.
Arguments Raise {A} e.

(** ** Floating-point values

    A Python [float] is an IEEE 754 binary64 number. *)

Definition float := spec_float.

Definition prec : Z := 53.
Definition emax : Z := 1024.

(** The binary64 number nearest to [m / 10^k] (ties to even), for [0 <= m]. *)
Definition float_of_ratio (m : Z) (k : nat) : float :=
  match m with
  | Z0 => S754_zero false
  | _ =>
      let '(q, e, l) := SFdiv_core_binary prec emax m 0 (10 ^ Z.of_nat k) 0 in
      binary_round_aux prec emax false q e l
  end.

Definition float_of_Z (m : Z) : float := float_of_ratio m 0.

(** The literal [0.0]. *)
Definition zero : float := S754_zero false.

(** The rational number that a finite float is. *)
Definition float_value (x : float) : option Q :=
  match x with
  | S754_zero _ => Some (0 # 1)%Q
  | S754_finite s m e =>
      Some (Qred (((if s then Z.neg m else Z.pos m) # 1) * Qpower (2 # 1) e)%Q)
  | S754_infinity _ | S754_nan => None
  end.

Definition digit_value (c : ascii) : Z := Z.of_N (ord c) - 48.

(** The number written by a string of decimal digits. *)
Definition digits_value (s : str) : Z :=
  fold_left (fun acc c => 10 * acc + digit_value c)%Z s 0%Z.

Fixpoint dropwhile (p : ascii -> bool) (s : str) : str :=
  match s with
  | c :: s' => if p c then dropwhile p s' else s
  | [] => []
  end.

(** [str.strip()] *)
Definition strip (s : str) : str :=
  rev (dropwhile isspace (rev (dropwhile isspace s))).

(** The text before the first ["."] and, when there is one, the text after
    it. *)
Fixpoint cut_at_point (s : str) : str * option str :=
  match s with
  | [] => ([], None)
  | c :: s' =>
      if is_code 46 c then ([], Some s')
      else let '(ip, fp) := cut_at_point s' in (c :: ip, fp)
  end.

(** A leading sign, and the text after it. *)
Definition split_sign (s : str) : bool * str :=
  match s with
  | c :: s' =>
      if is_code 45 c then (true, s')
      else if is_code 43 c then (false, s') else (false, s)
  | [] => (false, s)
  end.

(** Digits, and a fraction after a point, with a digit on one side of the
    point at least. *)
Definition parse_decimal (s : str) : result float :=
  let '(ip, fp) := cut_at_point s in
  let fp := match fp with Some fp => fp | None => [] end in
  match ip ++ fp with
  | [] => Raise ValueError
  | ds =>
      if forallb isdecimal ds
      then Ok (float_of_ratio (digits_value ds) (length fp))
      else Raise ValueError
  end.

(** [float(s)] on the plain decimal notation: surrounding whitespace, a
    sign, and a decimal number.  Python also reads exponents, underscores
    between digits and the words inf and nan; here such a string raises. *)
Definition py_float (s : str) : result float :=
  let '(neg, s) := split_sign (strip s) in
  match parse_decimal s with
  | Ok v => Ok (if neg then SFopp v else v)
  | Raise e => Raise e
  end.

(** [s.replace(old, new)] for a one-character [old]. *)
Definition replace (old : ascii) (new : str) (s : str) : str :=
  flat_map (fun c => if Ascii.eqb c old then new else [c]) s.

(** ** The amount extractor *)

(** The currency symbol of the patterns: in the source file, the three
    characters U+201A U+00C7 U+03C0. *)
Definition currency_symbol : regex := Seq (Lit 8218) (Seq (Lit 199) (Lit 960)).

(** [(?:rs\.?|inr|<symbol>)] *)
Definition currency : regex :=
  Alt (Seq (Lits (lit "rs")) (Opt (Lit 46)))
      (Alt (Lits (lit "inr")) currency_symbol).

(** [\d+(?:,\d+)*(?:\.\d{2})?] *)
Definition numeral : regex :=
  Seq (Plus (Class Digit))
      (Seq (Star (Seq (Lit 44) (Plus (Class Digit))))
           (Opt (Seq (Lit 46) (Rep 2 (Class Digit))))).

(** [(\d+(?:,\d+)*(?:\.\d{2})?)] *)
Definition number : regex := Group numeral.

Definition spaces : regex := Star (Class Space).

(** [keyword\s*(?:rs\.?|inr|<symbol>)?\s*(number)] *)
Definition keyword_pattern (kw : string) : regex :=
  Seq (Lits (lit kw)) (Seq spaces (Seq (Opt currency) (Seq spaces number))).

(** [(?:rs\.?|inr|<symbol>)\s*(number)] *)
Definition currency_then_number : regex := Seq currency (Seq spaces number).

(** [(number)\s*(?:rs\.?|inr|<symbol>)] *)
Definition number_then_currency : regex := Seq number (Seq spaces currency).

Definition patterns : list regex :=
  [ currency_then_number;
    number_then_currency;
    keyword_pattern "amount";
    keyword_pattern "debited";
    keyword_pattern "spent" ].

(** [float(match.group(1).replace(',', ''))] *)
Definition amount_of_match (g : option str) : result float :=
  match g with
  | Some amount => py_float (replace ","%char [] amount)
  | None => Raise AttributeError
  end.

(** The loop over the patterns, with its [return] at the first match. *)
Fixpoint first_match (ps : list regex) (sms_text : str) : result float :=
  match ps with
  | [] => Ok zero
  | pattern :: ps' =>
      match re_search pattern (lower sms_text) with
      | Some g => amount_of_match g
      | None => first_match ps' sms_text
      end
  end.

Definition extract_amount_from_sms (sms_text : str) : result float :=
  first_match patterns sms_text.

(** ** The merchant extractor *)

Fixpoint starts_with (p s : str) : bool :=
  match p, s with
  | [], _ => true
  | a :: p', b :: s' => Ascii.eqb a b && starts_with p' s'
  | _ :: _, [] => false
  end.

(** [needle in hay] *)
Fixpoint contains (needle hay : str) : bool :=
  starts_with needle hay
  || match hay with
     | [] => false
     | _ :: hay' => contains needle hay'
     end.

(** The cased characters of the range; its letters all are. *)
Definition iscased (c : ascii) : bool := isalpha c.

(** The capital of a letter.  The capitals of U+00B5, U+00DF and U+00FF lie
    outside the range; these three are left as they are (no merchant name
    contains one). *)
Definition upper_char (c : ascii) : ascii :=
  if in_range 97 122 c || in_range 224 246 c || in_range 248 254 c
  then chr (ord c - 32) else c.

(** [str.title()]: a cased character that follows a cased one is
    lower-cased, any other is capitalised. *)
Fixpoint title_from (previous_is_cased : bool) (s : str) : str :=
  match s with
  | [] => []
  | c :: s' =>
      (if previous_is_cased then lower_char c else upper_char c)
        :: title_from (iscased c) s'
  end.

Definition title (s : str) : str := title_from false s.

Definition merchants : list str :=
  map lit [ "swiggy"; "zomato"; "amazon"; "flipkart"; "netflix"; "uber";
            "ola"; "pizza hut"; "dominos"; "mcdonald"; "starbucks";
            "big bazaar"; "dmart" ]%string.

Definition unknown_merchant : str := lit "Unknown Merchant".

Fixpoint first_merchant (ms : list str) (sms_text : str) : str :=
  match ms with
  | [] => unknown_merchant
  | merchant :: ms' =>
      if contains merchant (lower sms_text) then title merchant
      else first_merchant ms' sms_text
  end.

Definition extract_merchant_from_sms (sms_text : str) : str :=
  first_merchant merchants sms_text.


(** ** The categorize endpoint *)

#[local] Set Warnings "-register-all".

(** A parsed JSON body.  Integers stand for the numbers. *)
Inductive json :=
| JNull
| JBool (b : bool)
| JNum (z : Z)
| JStr (s : str)
| JList (l : list json)
| JDict (kv : list (str * json)).

(** The request, as far as the endpoint reads it: [request.get_json()]
    returns the parsed body or raises. *)
Record request := Request { get_json : result json }.

Definition str_eqb (a b : str) : bool :=
  (length a =? length b) && starts_with a b.

(** Truth value of a parsed body, as [not data] tests it. *)
Definition truthy (j : json) : bool :=
  match j with
  | JNull => false
  | JBool b => b
  | JNum z => negb (z =? 0)%Z
  | JStr s => negb (length s =? 0)
  | JList l => negb (length l =? 0)
  | JDict kv => negb (length kv =? 0)
  end.

Fixpoint lookup (key : str) (kv : list (str * json)) : option json :=
  match kv with
  | [] => None
  | (k, v) :: kv' => if str_eqb key k then Some v else lookup key kv'
  end.

(** [key in data] *)
Definition has_key (key : str) (data : json) : result bool :=
  match data with
  | JDict kv => Ok (match lookup key kv with Some _ => true | None => false end)
  | JList l =>
      Ok (existsb (fun j => match j with JStr s => str_eqb key s | _ => false end) l)
  | JStr s => Ok (contains key s)
  | JNull | JBool _ | JNum _ => Raise TypeError
  end.

(** [data[key]], for a key that [data] has. *)
Definition getitem (key : str) (data : json) : result json :=
  match data with
  | JDict kv =>
      match lookup key kv with
      | Some v => Ok v
      | None => Raise (OtherError "KeyError")
      end
  | _ => Raise TypeError
  end.

Section Endpoint.

(** The classifier and its vectorizer are opaque: feature vectors and
    labels are what they make them.  Probabilities are floats;
    [round2 x] is [round(x, 2)] of the numeric library. *)
Variables Vec Label : Type.
Variable round2 : float -> float.

Record Vectorizer := { transform : list str -> result Vec }.

Record Model :=
  { predict : Vec -> result (list Label);
    predict_proba : Vec -> result (list (list float)) }.

(** Module start: both are loaded, or neither is kept. *)
Definition load_models (load_model : result Model)
           (load_vectorizer : result Vectorizer)
  : option Model * option Vectorizer :=
  match load_model with
  | Ok model =>
      match load_vectorizer with
      | Ok vectorizer => (Some model, Some vectorizer)
      | Raise _ => (None, None)
      end
  | Raise _ => (None, None)
  end.

(** What is printed. *)
Inductive print_line :=
| Processing (head : str)
| ProcessingItems (head : list json)
| ResultLine (prediction : Label) (confidence : float)
| ErrorLine (e : exn).

(** What a call does besides returning: printing, and calls of the
    classifier. *)
Inductive event :=
| Printed (line : print_line)
| Transformed (docs : list str)
| Predicted (v : Vec)
| PredictedProba (v : Vec).

(** Computations that append to the trace of events and may raise. *)
Definition M (A : Type) : Type := list event -> result A * list event.

Definition ret {A} (a : A) : M A := fun tr => (Ok a, tr).

Definition bind {A B} (m : M A) (f : A -> M B) : M B :=
  fun tr =>
    match m tr with
    | (Ok a, tr') => f a tr'
    | (Raise e, tr') => (Raise e, tr')
    end.

Definition lift {A} (r : result A) : M A := fun tr => (r, tr).

Definition emit (ev : event) : M unit := fun tr => (Ok tt, tr ++ [ev]).

(** [try: m except Exception as e: handler(e)] *)
Definition try_except {A} (m : M A) (handler : exn -> M A) : M A :=
  fun tr =>
    match m tr with
    | (Ok a, tr') => (Ok a, tr')
    | (Raise e, tr') => handler e tr'
    end.

Notation "x <- m ;; k" := (bind m (fun x => k))
  (at level 61, m at next level, right associativity).
Notation "m ;;; k" := (bind m (fun _ => k))
  (at level 61, right associativity).

Inductive error_text :=
| Message (s : string)
| OfException (e : exn).       (* str(e) *)

Inductive response_body :=
| ErrorBody (error : error_text) (example : option str)
| ResultBody (category : Label) (confidence : float) (amount : float)
             (merchant : str) (original_text : str) (processed_at : str).

Record response := Response { body : response_body; status : nat }.

Definition model_not_loaded : response :=
  Response (ErrorBody (Message "Model not loaded properly") None) 500.

Definition missing_sms_text : response :=
  Response (ErrorBody (Message "Please provide sms_text in JSON")
                      (Some (lit "Rs 200 spent on Swiggy order")))
           400.

(** [xs[0]] *)
Definition first_item {A} (xs : list A) : result A :=
  match xs with
  | x :: _ => Ok x
  | [] => Raise IndexError
  end.

(** [max(xs)]: the first of the largest items. *)
Definition py_max (xs : list float) : result float :=
  match xs with
  | [] => Raise ValueError
  | x :: xs' =>
      Ok (fold_left (fun best y => if SFltb best y then y else best) xs' x)
  end.

(** The text of the [sms_text] field, after the line that prints its
    first 50 characters.  A list is printed, and has no [lower]; any other
    value cannot be sliced (which exception that raises is not told
    apart). *)
Definition text_of (sms_text : json) : M str :=
  match sms_text with
  | JStr s => emit (Printed (Processing (firstn 50 s))) ;;; ret s
  | JList l =>
      emit (Printed (ProcessingItems (firstn 50 l))) ;;;
      lift (Raise AttributeError)
  | _ => lift (Raise TypeError)
  end.

(** The body of the [try] block; [now] is the formatted time of the
    clock when the result is assembled. *)
Definition categorize_try (model : option Model)
           (vectorizer : option Vectorizer) (now : str) (req : request)
  : M response :=
  match model, vectorizer with
  | Some model, Some vectorizer =>
      data <- lift (get_json req) ;;
      present <- (if truthy data then lift (has_key (lit "sms_text") data)
                  else ret false) ;;
      if negb present then ret missing_sms_text
      else
        sms_text <- lift (getitem (lit "sms_text") data) ;;
        sms_text <- text_of sms_text ;;
        let processed_text := preprocess_text sms_text in
        emit (Transformed [processed_text]) ;;;
        text_vector <- lift (transform vectorizer [processed_text]) ;;
        emit (Predicted text_vector) ;;;
        predictions <- lift (predict model text_vector) ;;
        prediction <- lift (first_item predictions) ;;
        emit (PredictedProba text_vector) ;;;
        rows <- lift (predict_proba model text_vector) ;;
        probabilities <- lift (first_item rows) ;;
        confidence <- lift (py_max probabilities) ;;
        amount <- lift (extract_amount_from_sms sms_text) ;;
        let merchant := extract_merchant_from_sms sms_text in
        let result :=
          ResultBody prediction (round2 confidence) amount merchant
                     sms_text now in
        emit (Printed (ResultLine prediction confidence)) ;;;
        ret (Response result 200)
  | _, _ => ret model_not_loaded
  end.

Definition categorize_handler (e : exn) : M response :=
  emit (Printed (ErrorLine e)) ;;;
  ret (Response (ErrorBody (OfException e) None) 500).

(** The response of the endpoint, and the events of the call.  The
    handler does not raise. *)
Definition categorize_sms (model : option Model)
           (vectorizer : option Vectorizer) (now : str) (req : request)
  : response * list event :=
  match try_except (categorize_try model vectorizer now req)
                   categorize_handler []
  with
  | (Ok resp, tr) => (resp, tr)
  | (Raise e, tr) => (Response (ErrorBody (OfException e) None) 500, tr)
  end.

End Endpoint.

Arguments transform {Vec} _ _.
Arguments predict {Vec Label} _ _.
Arguments predict_proba {Vec Label} _ _.
Arguments Processing {Label} _.
Arguments ProcessingItems {Label} _.
Arguments ResultLine {Label} _ _.
Arguments ErrorLine {Label} _.
Arguments Printed {Vec Label} _.
Arguments Transformed {Vec Label} _.
Arguments Predicted {Vec Label} _.
Arguments PredictedProba {Vec Label} _.
Arguments ErrorBody {Label} _ _.
Arguments ResultBody {Label} _ _ _ _ _ _.
Arguments Response {Label} _ _.
Arguments body {Label} _.
Arguments status {Label} _.
Arguments model_not_loaded {Label}.
Arguments missing_sms_text {Label}.
Arguments load_models {Vec Label} _ _.
Arguments categorize_sms {Vec Label} _ _ _ _ _.
(** ** Notions used in the statements *)

(** Every character of the range. *)
Definition all_chars : list ascii := map (fun n => chr (N.of_nat n)) (seq 0 256).

(** What [re.sub] with the pattern [[^\w\s]] does to one character. *)
Definition clean_char (c : ascii) : ascii :=
  if negb (isword c || isspace c) then space else c.

(** A character of a word of the normalised text. *)
Definition word_char (c : ascii) : bool :=
  isword c && negb (isspace c) && Ascii.eqb (lower_char c) c.

Definition is_word (w : str) : Prop := w <> [] /\ Forall (fun c => isspace c = false) w.

(** The words of the normalised text. *)
Definition words_of (text : str) : list str :=
  split (map clean_char (lower text)).

Definition text_char (c : ascii) : Prop := c = space \/ word_char c = true.


(** An alphanumeric character that lower-casing leaves as it is. *)
Definition lowercase_alnum (c : ascii) : bool :=
  isalnum c && Ascii.eqb (lower_char c) c.

Definition underscore : ascii := "_"%char.

(** No space in front, none at the end, no two in a row. *)
Definition single_spaced (s : str) : Prop :=
  (forall v, s <> space :: v)
  /\ (forall u, s <> u ++ [space])
  /\ (forall u v, s <> u ++ space :: space :: v).

(** The words a pattern matches, whatever the order of the attempts. *)
Fixpoint lang (r : regex) (w : str) : Prop :=
  match r with
  | Eps => w = []
  | Lit cp => exists c, w = [c] /\ is_code cp c = true
  | Class k => exists c, w = [c] /\ in_class k c = true
  | NegSet ks =>
      exists c, w = [c] /\ existsb (fun k => in_class k c) ks = false
  | Seq a b => exists u v, w = u ++ v /\ lang a u /\ lang b v
  | Alt a b => lang a w \/ lang b w
  | Opt a => w = [] \/ lang a w
  | Star a => exists ws, w = concat ws /\ Forall (lang a) ws
  | Rep n a => exists ws, length ws = n /\ w = concat ws /\ Forall (lang a) ws
  | Group a => lang a w
  end.

(** Every capture group of [r] encloses a pattern whose words satisfy [P]. *)
Fixpoint groups_in (P : str -> Prop) (r : regex) : Prop :=
  match r with
  | Group a => forall w, lang a w -> P w
  | Seq a b | Alt a b => groups_in P a /\ groups_in P b
  | Opt a | Star a | Rep _ a => groups_in P a
  | _ => True
  end.

(** Every match of [r] goes through a capture group. *)
Fixpoint sets_group (r : regex) : bool :=
  match r with
  | Group _ => true
  | Seq a b => sets_group a || sets_group b
  | Alt a b => sets_group a && sets_group b
  | Rep (S _) a => sets_group a
  | _ => false
  end.

(** Group 1 is set, to a text that satisfies [P]. *)
Definition captured (P : str -> Prop) (st : mstate) : Prop :=
  exists g, grp st = Some g /\ P g.

(** [x] is the first match that the matcher finds for [r] from [st]. *)
Definition first (r : regex) (st x : mstate) : Prop :=
  exists tl, run r st = x :: tl.

Definition digits (s : str) : Prop := Forall (fun c => isdecimal c = true) s.

Definition comma : ascii := ","%char.

Definition point : ascii := "."%char.

(** The texts that group 1 can hold: digits, groups of digits after commas,
    and at the end a point and two digits, or nothing. *)
Definition numeral_text (w : str) : Prop :=
  exists ds sep frac,
    w = ds ++ sep ++ frac
    /\ ds <> [] /\ digits ds
    /\ Forall (fun c => isdecimal c = true \/ c = comma) sep
    /\ (frac = [] \/ exists a b, frac = [point; a; b] /\ digits [a; b]).

(** The two patterns anchored to a currency marker, and the three anchored
    to a keyword. *)
Definition currency_patterns : list regex :=
  [currency_then_number; number_then_currency].



(** The text [v] does not begin with a character that satisfies [p]. *)
Definition stops (p : ascii -> bool) (v : str) : Prop :=
  match v with
  | c :: _ => p c = false
  | [] => True
  end.

(** The record of the extraction pipeline: category, confidence, amount,
    merchant and the original text. *)
Record ExtractionResult (Label : Type) :=
  { category : Label;
    confidence : float;
    amount : float;
    merchant : str;
    original_text : str }.

Arguments category {Label} _.
Arguments confidence {Label} _.
Arguments amount {Label} _.
Arguments merchant {Label} _.
Arguments original_text {Label} _.

(** The extraction result that a response carries, if it carries one. *)
Definition extraction_result {Label : Type} (r : response Label)
  : option (ExtractionResult Label) :=
  match body r with
  | ResultBody c p a m t _ =>
      Some {| category := c; confidence := p; amount := a; merchant := m;
              original_text := t |}
  | ErrorBody _ _ => None
  end.

(** A request whose body is the object with the one field [sms_text]. *)
Definition text_request (text : str) : request :=
  Request (Ok (JDict [(lit "sms_text", JStr text)])).

Definition and_then {A B : Type} (r : result A) (f : A -> option B) : option B :=
  match r with
  | Ok a => f a
  | Raise _ => None
  end.

(** The pipeline as its five steps: normalise, classify the normalised
    text, extract the amount and the merchant from the raw text, assemble.
    It is a function of the classifier and the text. *)
Definition process {Vec Label : Type} (round2 : float -> float)
           (model : Model Vec Label) (vectorizer : Vectorizer Vec) (text : str)
  : option (ExtractionResult Label) :=
  let normalized := preprocess_text text in
  and_then (transform vectorizer [normalized]) (fun v =>
  and_then (predict model v) (fun labels =>
  and_then (first_item labels) (fun label =>
  and_then (predict_proba model v) (fun rows =>
  and_then (first_item rows) (fun row =>
  and_then (py_max row) (fun p =>
  and_then (extract_amount_from_sms text) (fun a =>
    Some {| category := label; confidence := round2 p; amount := a;
            merchant := extract_merchant_from_sms text;
            original_text := text |}))))))).

(** The events of a call that are calls of the classifier. *)
Definition classifier_event {Vec Label : Type} (ev : event Vec Label) : bool :=
  match ev with
  | Printed _ => false
  | _ => true
  end.

(** A stub classifier: a vectorizer that keeps the text, a model with one
    label and one probability. *)
Definition stub_vectorizer : Vectorizer str :=
  {| transform := fun docs => Ok (concat docs) |}.

Definition stub_model : Model str str :=
  {| predict := fun _ => Ok [lit "Essentials"];
     predict_proba := fun _ => Ok [[float_of_Z 1]] |}.

(** ** The home page and the test endpoint *)

Section OtherEndpoints.

Variables Vec Label : Type.
Variable round2 : float -> float.

(** The body of the home page; [h_status] is its field [status]. *)
Record home_body :=
  { h_message : list N;
    h_status : str;
    h_model_loaded : bool;
    h_categories : list str;
    h_time : str }.

(** The message of the home page, by code points: four characters in front
    of the words. *)
Definition home_message : list N :=
  [63743; 252; 167; 241]%N
  ++ map ord (lit " SMS Categorization API is running!").

(** [model is not None] *)
Definition is_not_none {A : Type} (x : option A) : bool :=
  match x with
  | Some _ => true
  | None => false
  end.

Definition home (model : option (Model Vec Label)) (now : str)
  : home_body * nat :=
  ({| h_message := home_message;
      h_status := lit "healthy";
      h_model_loaded := is_not_none model;
      h_categories := [lit "Essentials"; lit "Emergency"; lit "Impulse"];
      h_time := now |},
   200).

(** An entry of the test results: a classified message, or a message and
    the text of the exception. *)
Inductive test_entry :=
| TestResult (sms : str) (category : Label) (confidence : float)
| TestError (sms : str) (error : error_text).

Inductive test_body :=
| TestFailure (error : error_text)
| TestReport (test_results : list test_entry) (model_status : str).

Record test_response := TestResponse { t_body : test_body; t_status : nat }.

Definition test_sms : list str :=
  [ lit "Rs 200 spent on Pizza Hut order";
    lit "Rs 50 paid for bus fare";
    lit "Rs 1500 emergency doctor fees" ].

(** [vectorizer.transform]: a missing vectorizer has no such attribute. *)
Definition attribute_of {A : Type} (x : option A) : result A :=
  match x with
  | Some a => Ok a
  | None => Raise AttributeError
  end.

(** One turn of the loop: the [try] block and its handler. *)
Definition test_one (model : Model Vec Label)
           (vectorizer : option (Vectorizer Vec)) (sms : str)
  : M Vec Label test_entry :=
  try_except Vec Label
    (let processed := preprocess_text sms in
     bind Vec Label (lift Vec Label (attribute_of vectorizer)) (fun vectorizer =>
     bind Vec Label (emit Vec Label (Transformed [processed])) (fun _ =>
     bind Vec Label (lift Vec Label (transform vectorizer [processed])) (fun vector =>
     bind Vec Label (emit Vec Label (Predicted vector)) (fun _ =>
     bind Vec Label (lift Vec Label (predict model vector)) (fun predictions =>
     bind Vec Label (lift Vec Label (first_item predictions)) (fun prediction =>
     bind Vec Label (emit Vec Label (PredictedProba vector)) (fun _ =>
     bind Vec Label (lift Vec Label (predict_proba model vector)) (fun rows =>
     bind Vec Label (lift Vec Label (first_item rows)) (fun row =>
     bind Vec Label (lift Vec Label (py_max row)) (fun confidence =>
     ret Vec Label (TestResult sms prediction (round2 confidence)))))))))))))
    (fun e => ret Vec Label (TestError sms (OfException e))).

(** The loop over the messages; [results] is the list built so far. *)
Fixpoint test_loop (model : Model Vec Label)
         (vectorizer : option (Vectorizer Vec)) (smss : list str)
         (results : list test_entry) : M Vec Label (list test_entry) :=
  match smss with
  | [] => ret Vec Label results
  | sms :: smss' =>
      bind Vec Label (test_one model vectorizer sms) (fun entry =>
      test_loop model vectorizer smss' (results ++ [entry]))
  end.

(** The response of the test endpoint and the events of the call.  Only the
    model is checked.  No exception leaves the loop; one that did would
    leave the function. *)
Definition test_api (model : option (Model Vec Label))
           (vectorizer : option (Vectorizer Vec))
  : test_response * list (event Vec Label) :=
  match model with
  | None => (TestResponse (TestFailure (Message "Model not loaded")) 500, [])
  | Some model =>
      match test_loop model vectorizer test_sms [] [] with
      | (Ok results, tr) =>
          (TestResponse (TestReport results (lit "working")) 200, tr)
      | (Raise e, tr) => (TestResponse (TestFailure (OfException e)) 500, tr)
      end
  end.

End OtherEndpoints.

Arguments TestResult {Label} _ _ _.
Arguments TestError {Label} _ _.
Arguments TestFailure {Label} _.
Arguments TestReport {Label} _ _.
Arguments TestResponse {Label} _ _.
Arguments t_body {Label} _.
Arguments t_status {Label} _.
Arguments home {Vec Label} _ _.
Arguments test_one {Vec Label} _ _ _ _ _.
Arguments test_loop {Vec Label} _ _ _ _ _ _.
Arguments test_api {Vec Label} _ _ _.

(** ** Notions used in the further properties *)

Definition not_space (c : ascii) : bool := negb (isspace c).

(** A float that is zero, a positive number or plus infinity. *)
Definition nonneg_float (v : float) : Prop :=
  match v with
  | S754_zero false | S754_finite false _ _ | S754_infinity false => True
  | _ => False
  end.

(** The keywords of the last three patterns, in their order. *)
Definition keywords : list string := ["amount"; "debited"; "spent"]%string.

(** The text of a number with its commas: the first digits, and the groups
    of digits that follow a comma each. *)
Definition grouped (d0 : str) (gs : list str) : str :=
  d0 ++ concat (map (fun g => comma :: g) gs).

(** The digits of a number, without the commas. *)
Definition ungrouped (d0 : str) (gs : list str) : str := d0 ++ concat gs.

(** Nonempty strings of digits. *)
Definition digit_groups (gs : list str) : Prop :=
  Forall (fun g => g <> [] /\ digits g) gs.

(** The text after a number: it does not begin with a digit, nor with a
    comma and a digit, nor with a point and two digits. *)
Definition number_end (tail : str) : bool :=
  match tail with
  | [] => true
  | c :: t =>
      negb (isdecimal c)
      && negb (is_code 44 c
               && match t with d :: _ => isdecimal d | [] => false end)
      && negb (is_code 46 c
               && match t with
                  | d1 :: d2 :: _ => isdecimal d1 && isdecimal d2
                  | _ => false
                  end)
  end.

(** The fraction of a number: none, or a point and two digits. *)
Definition fraction_ok (frac : str) : Prop :=
  frac = [] \/ exists a b, frac = [point; a; b] /\ digits [a; b].

(** The float that a number with commas and a fraction is read as: its
    digits, divided by a hundred when it has the fraction. *)
Definition numeral_value (d0 : str) (gs : list str) (frac : str) : float :=
  float_of_ratio (digits_value (ungrouped d0 gs ++ skipn 1 frac))
                 (length (skipn 1 frac)).

(** The calls of the classifier among the events of a call. *)
Definition classifier_calls {Vec Label : Type} (tr : list (event Vec Label))
  : list (event Vec Label) :=
  filter classifier_event tr.

(** The message of an entry of the test results. *)
Definition entry_sms {Label : Type} (entry : test_entry Label) : str :=
  match entry with
  | TestResult sms _ _ => sms
  | TestError sms _ => sms
  end.

(** What the test endpoint reports for a message, given the result of the
    pipeline for it. *)
Definition entry_agrees {Label : Type} (entry : test_entry Label)
           (r : option (ExtractionResult Label)) : Prop :=
  match entry, r with
  | TestResult _ c p, Some r => c = category r /\ p = confidence r
  | TestError _ (OfException _), None => True
  | _, _ => False
  end.

(** The result of the pipeline for a message, when there is a vectorizer. *)
Definition pipeline_result {Vec Label : Type} (round2 : float -> float)
           (model : Model Vec Label) (vectorizer : option (Vectorizer Vec))
           (sms : str) : option (ExtractionResult Label) :=
  match vectorizer with
  | Some v => process round2 model v sms
  | None => None
  end.
(** * Properties *)

(** ** The examples of the specification *)

Example preprocess_text_example :
  preprocess_text (lit "Rs.200  spent, on SWIGGY!") = lit "rs 200 spent on swiggy".
Proof. vm_compute. reflexivity. Qed.

Example preprocess_text_empty : preprocess_text [] = [].
Proof. reflexivity. Qed.

Example swiggy_order :
  extract_amount_from_sms (lit "Rs 200 spent on Swiggy order") = Ok (float_of_Z 200)
  /\ extract_merchant_from_sms (lit "Rs 200 spent on Swiggy order") = lit "Swiggy".
Proof. split; vm_compute; reflexivity. Qed.

Example bus_fare :
  extract_amount_from_sms (lit "Rs 50 paid for bus fare") = Ok (float_of_Z 50)
  /\ extract_merchant_from_sms (lit "Rs 50 paid for bus fare") = unknown_merchant.
Proof. split; vm_compute; reflexivity. Qed.

Example doctor_fees :
  extract_amount_from_sms (lit "Rs 1500 emergency doctor fees") = Ok (float_of_Z 1500)
  /\ extract_merchant_from_sms (lit "Rs 1500 emergency doctor fees")
     = unknown_merchant.
Proof. split; vm_compute; reflexivity. Qed.

Example two_digit_fraction :
  extract_amount_from_sms (lit "paid 1,500.50 INR at shop")
  = Ok (float_of_ratio 150050 2)
  /\ float_of_ratio 150050 2 = S754_finite false 6599268789911552 (-42).
Proof. split; vm_compute; reflexivity. Qed.

Example float_examples :
  float_of_ratio 105 1 = S754_finite false 5910974510923776 (-49)
  /\ float_value (float_of_ratio 150050 2) = Some (3001 # 2)%Q
  /\ float_of_Z 10 = S754_finite false 5629499534213120 (-49)
  /\ float_of_Z (10 ^ 400) = S754_infinity false
  /\ py_float (lit " -12.50 ") = Ok (S754_finite true 7036874417766400 (-49))
  /\ py_float (lit "1,5") = Raise ValueError
  /\ py_float [] = Raise ValueError.
Proof. repeat split; vm_compute; reflexivity. Qed.

(** ** Character tables *)

Lemma all_chars_complete (c : ascii) : In c all_chars.
Proof.
  unfold all_chars. apply in_map_iff. exists (nat_of_ascii c). split.
  - unfold chr. rewrite <- (ascii_nat_embedding c) at 2.
    reflexivity.
  - apply in_seq. pose proof (nat_ascii_bounded c). lia.
Qed.

Lemma for_all_chars (P : ascii -> bool) :
  forallb P all_chars = true -> forall c, P c = true.
Proof.
  intros H c. rewrite forallb_forall in H. apply H, all_chars_complete.
Qed.

Ltac by_table :=
  match goal with
  | |- forall c : ascii, _ = true => apply for_all_chars; vm_compute; reflexivity
  end.

Lemma clean_lower_word_char :
  forall c, (isspace (clean_char (lower_char c))
             || word_char (clean_char (lower_char c))) = true.
Proof. by_table. Qed.

Lemma word_char_fixed :
  forall c, (negb (word_char c)
             || (Ascii.eqb (lower_char c) c && Ascii.eqb (clean_char c) c
                 && negb (isspace c) && negb (Ascii.eqb c space))) = true.
Proof. by_table. Qed.

Lemma word_char_lower c : word_char c = true -> lower_char c = c.
Proof.
  intros H. pose proof (word_char_fixed c) as F. rewrite H in F. simpl in F.
  rewrite !andb_true_iff in F. now apply Ascii.eqb_eq.
Qed.

Lemma word_char_clean c : word_char c = true -> clean_char c = c.
Proof.
  intros H. pose proof (word_char_fixed c) as F. rewrite H in F. simpl in F.
  rewrite !andb_true_iff in F. now apply Ascii.eqb_eq.
Qed.

(** ** [re.sub] with a one-character pattern *)

Lemma match_here_step (p : ascii -> bool) (r : regex) :
  (forall st, run r st = step_if p st) ->
  forall c s, match_here r (c :: s) = if p c then Some (MState s None) else None.
Proof.
  intros Hr c s. unfold match_here. rewrite Hr. unfold step_if. simpl.
  now destruct (p c).
Qed.

Lemma re_sub_step (p : ascii -> bool) (r : regex) (repl : str) :
  (forall st, run r st = step_if p st) ->
  forall s, re_sub r repl s = flat_map (fun c => if p c then repl else [c]) s.
Proof.
  intros Hr s. unfold re_sub. induction s as [|c s IH]; [reflexivity|].
  cbn [re_sub_from flat_map]. rewrite (@match_here_step p r Hr).
  destruct (p c).
  - cbn [rest]. replace (length (c :: s) - length s) with 1 by (cbn [length]; lia).
    now rewrite IH.
  - now rewrite IH.
Qed.

Lemma re_sub_clean (s : str) :
  re_sub not_word_or_space [space] s = map clean_char s.
Proof.
  rewrite (@re_sub_step
             (fun c => negb (existsb (fun k => in_class k c) [Word; Space]))
             not_word_or_space [space])
    by reflexivity.
  induction s as [|c s IH]; [reflexivity|].
  cbn [flat_map map]. rewrite IH. unfold clean_char. cbn [existsb in_class].
  rewrite orb_false_r. now destruct (negb (isword c || isspace c)).
Qed.

(** ** [split] and [join] *)

Lemma split_from_words (s cur : str) :
  Forall (fun c => isspace c = false) cur ->
  Forall is_word (split_from cur s).
Proof.
  revert cur. induction s as [|c s IH]; intros cur Hcur; cbn [split_from].
  - destruct cur; constructor; [|constructor]. split; [discriminate|assumption].
  - destruct (isspace c) eqn:Ec.
    + apply Forall_app. split; [|apply IH; constructor].
      destruct cur; constructor; [|constructor]. split; [discriminate|assumption].
    + apply IH. apply Forall_app. split; [assumption|]. now repeat constructor.
Qed.

Lemma split_from_chars (P : ascii -> Prop) (s cur : str) :
  Forall P cur -> Forall P s -> Forall (Forall P) (split_from cur s).
Proof.
  revert cur. induction s as [|c s IH]; intros cur Hcur Hs; cbn [split_from].
  - destruct cur; repeat constructor; inversion Hcur; assumption.
  - inversion Hs; subst. destruct (isspace c).
    + apply Forall_app. split; [|apply IH; [constructor|assumption]].
      destruct cur; repeat constructor; inversion Hcur; assumption.
    + apply IH; [|assumption]. apply Forall_app. split; [assumption|].
      now repeat constructor.
Qed.

Lemma split_from_word (w s cur : str) :
  Forall (fun c => isspace c = false) w ->
  split_from cur (w ++ s) = split_from (cur ++ w) s.
Proof.
  revert cur. induction w as [|c w IH]; intros cur Hw.
  - now rewrite app_nil_r.
  - inversion Hw; subst. cbn [app split_from]. rewrite H1.
    rewrite IH by assumption. now rewrite <- app_assoc.
Qed.

Lemma split_join (ws : list str) :
  Forall is_word ws -> split (join [space] ws) = ws.
Proof.
  unfold split. induction ws as [|w ws IH]; intros H; [reflexivity|].
  inversion H as [|? ? [Hne Hw] Hws]; subst.
  destruct ws as [|w2 ws].
  - cbn [join]. rewrite <- (app_nil_r w) at 1.
    rewrite split_from_word by assumption. cbn. now destruct w.
  - change (join [space] (w :: w2 :: ws))
      with (w ++ [space] ++ join [space] (w2 :: ws)).
    rewrite split_from_word by assumption. cbn [app split_from].
    change (isspace space) with true. cbn iota.
    rewrite (IH Hws). cbn. now destruct w.
Qed.

Lemma join_chars (P : ascii -> Prop) (sep : str) (ws : list str) :
  Forall P sep -> Forall (Forall P) ws -> Forall P (join sep ws).
Proof.
  intros Hsep. induction ws as [|w ws IH]; intros H; [constructor|].
  inversion H; subst. destruct ws as [|w2 ws]; [assumption|].
  change (join sep (w :: w2 :: ws)) with (w ++ sep ++ join sep (w2 :: ws)).
  rewrite !Forall_app. auto.
Qed.

(** ** The shape of the normalised text *)

Lemma preprocess_text_join (text : str) :
  preprocess_text text = join [space] (words_of text).
Proof.
  unfold preprocess_text, words_of. now rewrite re_sub_clean.
Qed.

Lemma words_of_words (text : str) : Forall is_word (words_of text).
Proof. apply split_from_words. constructor. Qed.

Lemma words_of_word_chars (text : str) :
  Forall (Forall (fun c => word_char c = true)) (words_of text).
Proof.
  assert (H : Forall (Forall (fun c => isspace c = true \/ word_char c = true))
                     (words_of text)).
  { apply split_from_chars; [constructor|]. unfold lower.
    rewrite map_map. apply Forall_forall. intros c Hc.
    apply in_map_iff in Hc. destruct Hc as [a [<- _]].
    apply orb_true_iff, clean_lower_word_char. }
  pose proof (words_of_words text) as W.
  rewrite Forall_forall in *. intros w Hw.
  specialize (H w Hw). destruct (W w Hw) as [_ Hs].
  rewrite Forall_forall in *. intros c Hc.
  destruct (H c Hc) as [E|E]; [|exact E].
  rewrite (Hs c Hc) in E. discriminate E.
Qed.

Lemma preprocess_text_chars (text : str) :
  Forall text_char (preprocess_text text).
Proof.
  rewrite preprocess_text_join. apply join_chars.
  - repeat constructor.
  - eapply Forall_impl; [|apply words_of_word_chars].
    intros w Hw. eapply Forall_impl; [|exact Hw]. intros c Hc. now right.
Qed.

Lemma map_fixed (f : ascii -> ascii) (s : str) :
  Forall (fun c => f c = c) s -> map f s = s.
Proof.
  induction 1 as [|c s Hc _ IH]; [reflexivity|]. cbn. now rewrite Hc, IH.
Qed.

Lemma text_chars_lower (s : str) : Forall text_char s -> lower s = s.
Proof.
  intros H. apply map_fixed. eapply Forall_impl; [|exact H].
  intros c [->|Hc]; [reflexivity|now apply word_char_lower].
Qed.

Lemma text_chars_clean (s : str) : Forall text_char s -> map clean_char s = s.
Proof.
  intros H. apply map_fixed. eapply Forall_impl; [|exact H].
  intros c [->|Hc]; [reflexivity|now apply word_char_clean].
Qed.

(** Joined words: no space in front, none at the end, no two in a row. *)

Lemma join_cons_cons (sep w w2 : str) (ws : list str) :
  join sep (w :: w2 :: ws) = w ++ sep ++ join sep (w2 :: ws).
Proof. reflexivity. Qed.

Lemma join_no_leading_space (ws : list str) (v : str) :
  Forall is_word ws -> join [space] ws <> space :: v.
Proof.
  intros H E. destruct ws as [|w ws]; [discriminate E|].
  inversion H as [|? ? [Hne Hw] _]; subst.
  destruct w as [|c w]; [now apply Hne|].
  inversion Hw; subst.
  assert (c = space) as ->.
  { destruct ws; cbn in E; now inversion E. }
  discriminate.
Qed.

Lemma word_no_space (w u v : str) :
  Forall (fun c => isspace c = false) w -> w <> u ++ space :: v.
Proof.
  intros Hw E. rewrite Forall_forall in Hw.
  assert (H : isspace space = false)
    by (apply Hw; rewrite E; apply in_elt).
  discriminate H.
Qed.

Lemma word_prefix_of_space (w u a b : str) :
  Forall (fun c => isspace c = false) w ->
  u ++ space :: a = w ++ space :: b ->
  u = w \/ exists u', u = w ++ space :: u' /\ b = u' ++ space :: a.
Proof.
  intros Hw E. apply app_eq_app in E. destruct E as [l [[E1 E2]|[E1 E2]]].
  - destruct l as [|c l].
    + left. now rewrite app_nil_r in E1.
    + cbn in E2. inversion E2; subst. right. now exists l.
  - destruct l as [|c l].
    + left. now rewrite app_nil_r in E1.
    + cbn in E2. inversion E2; subst. exfalso.
      now apply (@word_no_space (u ++ space :: l) u l).
Qed.

Lemma join_nil (sep w : str) (ws : list str) :
  join sep (w :: ws) = [] -> w = [].
Proof.
  destruct ws; cbn; [trivial|]. intros E. now apply app_eq_nil in E.
Qed.

Lemma join_no_trailing_space (ws : list str) (u : str) :
  Forall is_word ws -> join [space] ws <> u ++ [space].
Proof.
  revert u. induction ws as [|w ws IH]; intros u H E.
  - now destruct u.
  - inversion H as [|? ? [Hne Hw] Hws]; subst. destruct ws as [|w2 ws].
    + cbn in E. now apply (@word_no_space w u []).
    + rewrite join_cons_cons in E. cbn [app] in E. symmetry in E.
      pose proof E as E'.
      apply word_prefix_of_space in E'; [|assumption].
      destruct E' as [->|[u' [_ E']]].
      * apply app_inv_head in E.
        assert (E2 : join [space] (w2 :: ws) = []) by congruence.
        apply join_nil in E2. inversion Hws as [|? ? [Hne2 _] _]; subst.
        now apply Hne2.
      * now apply (IH u').
Qed.

Lemma join_no_double_space (ws : list str) (u v : str) :
  Forall is_word ws -> join [space] ws <> u ++ space :: space :: v.
Proof.
  revert u. induction ws as [|w ws IH]; intros u H E.
  - now destruct u.
  - inversion H as [|? ? [Hne Hw] Hws]; subst. destruct ws as [|w2 ws].
    + cbn in E. now apply (@word_no_space w u (space :: v)).
    + rewrite join_cons_cons in E. cbn [app] in E. symmetry in E.
      pose proof E as E'.
      apply word_prefix_of_space in E'; [|assumption].
      destruct E' as [->|[u' [_ E']]].
      * apply app_inv_head in E.
        assert (E2 : join [space] (w2 :: ws) = space :: v) by congruence.
        now apply (@join_no_leading_space (w2 :: ws) v).
      * now apply (IH u').
Qed.

(** ** The matcher: what a match consumes *)

Definition consumes (L : str -> Prop) (st st' : mstate) : Prop :=
  exists w, rest st = w ++ rest st' /\ L w.

Lemma step_if_consumes (p : ascii -> bool) (st st' : mstate) :
  In st' (step_if p st) ->
  exists c, rest st = c :: rest st' /\ p c = true /\ grp st' = grp st.
Proof.
  unfold step_if. destruct (rest st) as [|c s]; [intros []|].
  destruct (p c) eqn:E; [|intros []].
  intros [<-|[]]. now exists c.
Qed.

Lemma star_loop_consumes (L : str -> Prop) (body : mstate -> list mstate) :
  (forall st st', In st' (body st) -> consumes L st st') ->
  forall n st st', In st' (star_loop body n st) ->
  consumes (fun w => exists ws, w = concat ws /\ Forall L ws) st st'.
Proof.
  intros Hb n. induction n as [|n IH]; intros st st' H; cbn [star_loop] in H.
  - destruct H as [<-|[]]. exists []. split; [reflexivity|]. now exists [].
  - apply in_app_or in H. destruct H as [H|[<-|[]]].
    + apply in_flat_map in H. destruct H as [st1 [H1 H2]].
      destruct (length (rest st1) <? length (rest st)); [|destruct H2].
      destruct (Hb _ _ H1) as [w [Ew Lw]].
      destruct (IH _ _ H2) as [w' [Ew' [ws [-> Hws]]]].
      exists (w ++ concat ws). split.
      * rewrite Ew, Ew'. now rewrite app_assoc.
      * exists (w :: ws). split; [reflexivity|now constructor].
    + exists []. split; [reflexivity|]. now exists [].
Qed.

Lemma rep_loop_consumes (L : str -> Prop) (body : mstate -> list mstate) :
  (forall st st', In st' (body st) -> consumes L st st') ->
  forall n st st', In st' (rep_loop body n st) ->
  consumes (fun w => exists ws, length ws = n /\ w = concat ws /\ Forall L ws)
           st st'.
Proof.
  intros Hb n. induction n as [|n IH]; intros st st' H; cbn [rep_loop] in H.
  - destruct H as [<-|[]]. exists []. split; [reflexivity|]. now exists [].
  - apply in_flat_map in H. destruct H as [st1 [H1 H2]].
    destruct (Hb _ _ H1) as [w [Ew Lw]].
    destruct (IH _ _ H2) as [w' [Ew' [ws [Hl [-> Hws]]]]].
    exists (w ++ concat ws). split.
    + rewrite Ew, Ew'. now rewrite app_assoc.
    + exists (w :: ws). cbn. repeat split; [now f_equal|now constructor].
Qed.

(** Soundness: a match consumes a word of the pattern's language. *)
Lemma run_consumes (r : regex) :
  forall st st', In st' (run r st) -> consumes (lang r) st st'.
Proof.
  induction r as [|cp|k|ks|a IHa b IHb|a IHa b IHb|a IHa|a IHa|n a IHa|a IHa];
    intros st st' H; cbn [run] in H.
  - destruct H as [<-|[]]. now exists [].
  - apply step_if_consumes in H. destruct H as [c [E [Hc _]]].
    exists [c]. split; [exact E|]. now exists c.
  - apply step_if_consumes in H. destruct H as [c [E [Hc _]]].
    exists [c]. split; [exact E|]. now exists c.
  - apply step_if_consumes in H. destruct H as [c [E [Hc _]]].
    exists [c]. split; [exact E|]. exists c. split; [reflexivity|].
    now apply negb_true_iff.
  - apply in_flat_map in H. destruct H as [st1 [H1 H2]].
    destruct (IHa _ _ H1) as [u [Eu Lu]]. destruct (IHb _ _ H2) as [v [Ev Lv]].
    exists (u ++ v). split; [rewrite Eu, Ev; now rewrite app_assoc|].
    now exists u, v.
  - apply in_app_or in H. destruct H as [H|H].
    + destruct (IHa _ _ H) as [w [E L]]. exists w. split; [exact E|now left].
    + destruct (IHb _ _ H) as [w [E L]]. exists w. split; [exact E|now right].
  - apply in_app_or in H. destruct H as [H|[<-|[]]].
    + destruct (IHa _ _ H) as [w [E L]]. exists w. split; [exact E|now right].
    + exists []. split; [reflexivity|now left].
  - exact (star_loop_consumes _ _ IHa _ _ _ H).
  - exact (rep_loop_consumes _ _ IHa _ _ _ H).
  - apply in_map_iff in H. destruct H as [st1 [<- H1]].
    destruct (IHa _ _ H1) as [w [E L]]. now exists w.
Qed.

Lemma firstn_consumed (w s : str) :
  firstn (length (w ++ s) - length s) (w ++ s) = w.
Proof.
  rewrite length_app, Nat.add_sub. rewrite firstn_app, Nat.sub_diag.
  cbn. rewrite app_nil_r. apply firstn_all.
Qed.

(** ** The matcher: the capture group *)

Lemma star_loop_inv (Q : mstate -> Prop) (body : mstate -> list mstate) :
  (forall st st', Q st -> In st' (body st) -> Q st') ->
  forall n st st', Q st -> In st' (star_loop body n st) -> Q st'.
Proof.
  intros Hb n. induction n as [|n IH]; intros st st' HQ H; cbn [star_loop] in H.
  - now destruct H as [<-|[]].
  - apply in_app_or in H. destruct H as [H|[<-|[]]]; [|exact HQ].
    apply in_flat_map in H. destruct H as [st1 [H1 H2]].
    destruct (length (rest st1) <? length (rest st)); [|destruct H2].
    eapply IH; [|exact H2]. eapply Hb; eassumption.
Qed.

Lemma rep_loop_inv (Q : mstate -> Prop) (body : mstate -> list mstate) :
  (forall st st', Q st -> In st' (body st) -> Q st') ->
  forall n st st', Q st -> In st' (rep_loop body n st) -> Q st'.
Proof.
  intros Hb n. induction n as [|n IH]; intros st st' HQ H; cbn [rep_loop] in H.
  - now destruct H as [<-|[]].
  - apply in_flat_map in H. destruct H as [st1 [H1 H2]].
    eapply IH; [|exact H2]. eapply Hb; eassumption.
Qed.

Lemma run_group (P : str -> Prop) (a : regex) (st st' : mstate) :
  (forall w, lang a w -> P w) -> In st' (run (Group a) st) -> captured P st'.
Proof.
  intros HP H. cbn [run] in H. apply in_map_iff in H.
  destruct H as [st1 [<- H1]]. destruct (run_consumes _ _ _ H1) as [w [E L]].
  exists w. cbn [grp rest]. split; [|now apply HP].
  rewrite E. now rewrite firstn_consumed.
Qed.

(** Once set to a text that satisfies [P], the group stays so. *)
Lemma run_keeps_captured (P : str -> Prop) (r : regex) :
  groups_in P r ->
  forall st st', captured P st -> In st' (run r st) -> captured P st'.
Proof.
  induction r as [|cp|k|ks|a IHa b IHb|a IHa b IHb|a IHa|a IHa|n a IHa|a IHa];
    intros G st st' C H; cbn [run] in H; cbn [groups_in] in G.
  - now destruct H as [<-|[]].
  - apply step_if_consumes in H. destruct H as [c [_ [_ E]]].
    unfold captured. now rewrite E.
  - apply step_if_consumes in H. destruct H as [c [_ [_ E]]].
    unfold captured. now rewrite E.
  - apply step_if_consumes in H. destruct H as [c [_ [_ E]]].
    unfold captured. now rewrite E.
  - destruct G as [Ga Gb]. apply in_flat_map in H. destruct H as [st1 [H1 H2]].
    eapply IHb; [exact Gb| |exact H2]. eapply IHa; eassumption.
  - destruct G as [Ga Gb]. apply in_app_or in H. destruct H as [H|H].
    + eapply IHa; eassumption.
    + eapply IHb; eassumption.
  - apply in_app_or in H. destruct H as [H|[<-|[]]]; [|exact C].
    eapply IHa; eassumption.
  - eapply star_loop_inv; [|exact C|exact H]. intros; eapply IHa; eassumption.
  - eapply rep_loop_inv; [|exact C|exact H]. intros; eapply IHa; eassumption.
  - eapply run_group; eassumption.
Qed.

(** A pattern all of whose matches go through the group sets it. *)
Lemma run_sets_captured (P : str -> Prop) (r : regex) :
  groups_in P r -> sets_group r = true ->
  forall st st', In st' (run r st) -> captured P st'.
Proof.
  induction r as [|cp|k|ks|a IHa b IHb|a IHa b IHb|a IHa|a IHa|n a IHa|a IHa];
    intros G S st st' H; cbn [sets_group] in S; try discriminate S;
    cbn [groups_in] in G.
  - destruct G as [Ga Gb]. cbn [run] in H.
    apply in_flat_map in H. destruct H as [st1 [H1 H2]].
    destruct (sets_group a) eqn:Sa.
    + eapply run_keeps_captured; [exact Gb| |exact H2]. eapply IHa; eauto.
    + eapply IHb; eauto.
  - destruct G as [Ga Gb]. apply andb_true_iff in S. destruct S as [Sa Sb].
    cbn [run] in H. apply in_app_or in H. destruct H as [H|H].
    + eapply IHa; eauto.
    + eapply IHb; eauto.
  - destruct n as [|n]; [discriminate S|]. cbn [run rep_loop] in H.
    apply in_flat_map in H. destruct H as [st1 [H1 H2]].
    eapply rep_loop_inv; [|eapply IHa; eauto|exact H2].
    intros; eapply run_keeps_captured; eassumption.
  - eapply run_group; eassumption.
Qed.

(** [re.search] returns the group of a match at some position. *)
Lemma re_search_some (r : regex) (s : str) (g : option str) :
  re_search r s = Some g ->
  exists s' st, In st (run r (MState s' None)) /\ grp st = g.
Proof.
  induction s as [|c s IH]; cbn [re_search]; unfold match_here.
  - destruct (run r (MState [] None)) as [|st l] eqn:E; cbn; [discriminate|].
    intros [= <-]. exists [], st. rewrite E. split; [now left|reflexivity].
  - destruct (run r (MState (c :: s) None)) as [|st l] eqn:E; cbn.
    + exact IH.
    + intros [= <-]. exists (c :: s), st. rewrite E.
      split; [now left|reflexivity].
Qed.

Lemma re_search_captured (P : str -> Prop) (r : regex) (s : str) (g : option str) :
  groups_in P r -> sets_group r = true ->
  re_search r s = Some g -> exists w, g = Some w /\ P w.
Proof.
  intros G S H. apply re_search_some in H. destruct H as [s' [st [H <-]]].
  exact (run_sets_captured P r G S _ _ H).
Qed.

(** ** Reading a number *)

Lemma digit_plain :
  forall c, (negb (isdecimal c)
             || (negb (isspace c) && negb (is_code 45 c) && negb (is_code 43 c)
                 && negb (is_code 46 c) && negb (Ascii.eqb c comma))) = true.
Proof. by_table. Qed.

Lemma digit_facts (c : ascii) :
  isdecimal c = true ->
  isspace c = false /\ is_code 45 c = false /\ is_code 43 c = false
  /\ is_code 46 c = false /\ Ascii.eqb c comma = false.
Proof.
  intros H. pose proof (digit_plain c) as F. rewrite H in F. cbn in F.
  rewrite !andb_true_iff, !negb_true_iff in F. tauto.
Qed.

Lemma dropwhile_head (p : ascii -> bool) (c : ascii) (s : str) :
  p c = false -> dropwhile p (c :: s) = c :: s.
Proof. intros H. cbn. now rewrite H. Qed.

Lemma strip_fixed (s : str) :
  Forall (fun c => isspace c = false) s -> strip s = s.
Proof.
  intros H. unfold strip.
  assert (D : forall t, Forall (fun c => isspace c = false) t ->
                        dropwhile isspace t = t).
  { intros [|c t] Ht; [reflexivity|]. inversion Ht; subst.
    now apply dropwhile_head. }
  rewrite (D s H). rewrite D by now apply Forall_rev. apply rev_involutive.
Qed.

Lemma cut_at_point_digits (ds t : str) :
  digits ds ->
  cut_at_point (ds ++ t) = (ds ++ fst (cut_at_point t), snd (cut_at_point t)).
Proof.
  induction 1 as [|c ds Hc _ IH]; cbn [app].
  - now destruct (cut_at_point t).
  - cbn [cut_at_point]. destruct (digit_facts c Hc) as [_ [_ [_ [E _]]]].
    rewrite E, IH. reflexivity.
Qed.

Lemma digits_forallb (ds : str) : digits ds -> forallb isdecimal ds = true.
Proof. intros H. apply forallb_forall. now apply Forall_forall. Qed.

Lemma parse_decimal_digits (ds fp : str) (tail : str) (k : option str) :
  ds <> [] -> digits ds -> digits fp ->
  cut_at_point tail = ([], k) ->
  fp = match k with Some fp => fp | None => [] end ->
  parse_decimal (ds ++ tail)
  = Ok (float_of_ratio (digits_value (ds ++ fp)) (length fp)).
Proof.
  intros Hne Hd Hf Hc ->. unfold parse_decimal.
  rewrite cut_at_point_digits by assumption. rewrite Hc. cbn [fst snd].
  rewrite app_nil_r.
  set (fp := match k with Some fp => fp | None => [] end) in *.
  pose proof (digits_forallb (ds ++ fp)) as F.
  destruct ds as [|c ds]; [now contradiction Hne|].
  cbn [app] in *. rewrite F by (apply Forall_app with (l1 := c :: ds); now split).
  reflexivity.
Qed.

Lemma py_float_unsigned (s : str) (v : float) :
  (exists c t, s = c :: t /\ isdecimal c = true) ->
  Forall (fun c => isspace c = false) s ->
  parse_decimal s = Ok v -> py_float s = Ok v.
Proof.
  intros [c [t [-> Hc]]] Hs Hp. unfold py_float. rewrite strip_fixed by exact Hs.
  unfold split_sign. destruct (digit_facts c Hc) as [_ [E1 [E2 _]]].
  rewrite E1, E2. now rewrite Hp.
Qed.

(** What [float] returns on digits, and on digits, a point and digits. *)
Lemma py_float_digits (ds : str) :
  ds <> [] -> digits ds -> py_float ds = Ok (float_of_Z (digits_value ds)).
Proof.
  intros Hne Hd. apply py_float_unsigned.
  - destruct ds as [|c ds]; [now contradiction Hne|]. inversion Hd; subst.
    now exists c, ds.
  - eapply Forall_impl; [|exact Hd]. intros c Hc. now apply digit_facts.
  - rewrite <- (app_nil_r ds) at 1.
    rewrite (parse_decimal_digits ds [] [] None); try easy.
    + now rewrite app_nil_r.
    + constructor.
Qed.

Lemma py_float_fraction (ds fp : str) :
  ds <> [] -> digits ds -> digits fp ->
  py_float (ds ++ point :: fp)
  = Ok (float_of_ratio (digits_value (ds ++ fp)) (length fp)).
Proof.
  intros Hne Hd Hf. apply py_float_unsigned.
  - destruct ds as [|c ds]; [now contradiction Hne|]. inversion Hd; subst.
    now exists c, (ds ++ point :: fp).
  - apply Forall_app. split; [|constructor; [reflexivity|]].
    + eapply Forall_impl; [|exact Hd]. intros c Hc. now apply digit_facts.
    + eapply Forall_impl; [|exact Hf]. intros c Hc. now apply digit_facts.
  - now apply (parse_decimal_digits ds fp (point :: fp) (Some fp)).
Qed.

(** ** Removing the commas *)

Lemma replace_app (old : ascii) (new a b : str) :
  replace old new (a ++ b) = replace old new a ++ replace old new b.
Proof. unfold replace. apply flat_map_app. Qed.

Lemma replace_absent (old : ascii) (new s : str) :
  Forall (fun c => Ascii.eqb c old = false) s -> replace old new s = s.
Proof.
  induction 1 as [|c s Hc _ IH]; [reflexivity|].
  unfold replace in *. cbn [flat_map]. now rewrite Hc, IH.
Qed.

Lemma replace_digits (ds : str) : digits ds -> replace comma [] ds = ds.
Proof.
  intros H. apply replace_absent. eapply Forall_impl; [|exact H].
  intros c Hc. now apply digit_facts.
Qed.

Lemma replace_separated (sep : str) :
  Forall (fun c => isdecimal c = true \/ c = comma) sep ->
  digits (replace comma [] sep).
Proof.
  induction 1 as [|c s Hc _ IH]; [constructor|].
  unfold replace in *. cbn [flat_map]. destruct Hc as [Hc| ->].
  - destruct (digit_facts c Hc) as [_ [_ [_ [_ E]]]]. rewrite E.
    now constructor.
  - exact IH.
Qed.

(** ** The texts of the capture group *)

Lemma lang_plus_digits (w : str) :
  lang (Plus (Class Digit)) w -> w <> [] /\ digits w.
Proof.
  intros [u [v [-> [[c [-> Hc]] [ws [-> Hws]]]]]]. split; [discriminate|].
  constructor; [exact Hc|]. induction Hws as [|x ws [d [-> Hd]] _ IH].
  - constructor.
  - cbn. now constructor.
Qed.

Lemma lang_comma_groups (w : str) :
  lang (Star (Seq (Lit 44) (Plus (Class Digit)))) w ->
  Forall (fun c => isdecimal c = true \/ c = comma) w.
Proof.
  intros [ws [-> Hws]]. induction Hws as [|x ws Hx _ IH]; [constructor|].
  cbn [concat]. apply Forall_app. split; [|exact IH].
  destruct Hx as [u [v [-> [[c [-> Hc]] Hv]]]].
  apply lang_plus_digits in Hv. destruct Hv as [_ Hv].
  constructor.
  - right. apply N.eqb_eq in Hc. unfold ord in Hc.
    rewrite <- (ascii_N_embedding c), Hc. reflexivity.
  - eapply Forall_impl; [|exact Hv]. intros d Hd. now left.
Qed.

Lemma lang_fraction (w : str) :
  lang (Opt (Seq (Lit 46) (Rep 2 (Class Digit)))) w ->
  w = [] \/ exists a b, w = [point; a; b] /\ digits [a; b].
Proof.
  intros [->|[u [v [-> [[c [-> Hc]] [ws [Hl [-> Hws]]]]]]]]; [now left|right].
  destruct ws as [|x [|y [|z ws]]]; try discriminate Hl.
  inversion Hws as [|? ? [a [-> Ha]] Hws']; subst.
  inversion Hws' as [|? ? [b [-> Hb]] _]; subst.
  exists a, b. split; [|now repeat constructor].
  apply N.eqb_eq in Hc. unfold ord in Hc.
  cbn. f_equal. rewrite <- (ascii_N_embedding c), Hc. reflexivity.
Qed.

Lemma lang_numeral (w : str) : lang numeral w -> numeral_text w.
Proof.
  intros [ds [v [-> [Hds [sep [frac [-> [Hsep Hfrac]]]]]]]].
  apply lang_plus_digits in Hds. destruct Hds as [Hne Hds].
  exists ds, sep, frac. repeat split; try assumption.
  - now apply lang_comma_groups.
  - now apply lang_fraction.
Qed.

(** The value read from a text of the capture group. *)
Lemma numeral_text_parses (w : str) :
  numeral_text w -> exists v, py_float (replace comma [] w) = Ok v.
Proof.
  intros [ds [sep [frac [-> [Hne [Hds [Hsep Hfrac]]]]]]].
  rewrite !replace_app, (replace_digits ds Hds).
  pose proof (replace_separated sep Hsep) as Hs.
  set (ds2 := replace comma [] sep) in *.
  assert (Hne' : ds ++ ds2 <> []) by (destruct ds; [easy|discriminate]).
  assert (Hd' : digits (ds ++ ds2)) by (apply Forall_app; now split).
  destruct Hfrac as [->|[a [b [-> Hab]]]].
  - cbn [replace flat_map]. rewrite app_nil_r.
    eexists. now apply py_float_digits.
  - assert (E : replace comma [] [point; a; b] = point :: [a; b]).
    { apply replace_absent. constructor; [reflexivity|].
      eapply Forall_impl; [|exact Hab]. intros c Hc. now apply digit_facts. }
    rewrite E, app_assoc. eexists. now apply py_float_fraction.
Qed.

(** ** The list of patterns *)

Lemma patterns_capture (p : regex) :
  In p patterns -> groups_in numeral_text p /\ sets_group p = true.
Proof.
  intros H. cbn in H.
  repeat (destruct H as [<-|H]; [split; [|reflexivity]|]); try destruct H;
    cbn; repeat split; exact lang_numeral.
Qed.

(** A pattern of the list that matches has captured a numeral, and [float]
    reads it. *)
Lemma pattern_match_parses (p : regex) (s : str) (g : option str) :
  In p patterns -> re_search p s = Some g ->
  exists w v, g = Some w /\ numeral_text w /\ amount_of_match g = Ok v.
Proof.
  intros Hp H. destruct (patterns_capture p Hp) as [G S].
  destruct (re_search_captured numeral_text p s g G S H) as [w [-> Hw]].
  destruct (numeral_text_parses w Hw) as [v Hv]. now exists w, v.
Qed.


Lemma first_match_none (ps : list regex) (text : str) :
  (forall q, In q ps -> re_search q (lower text) = None) ->
  first_match ps text = Ok zero.
Proof.
  induction ps as [|q ps IH]; intros Hnone; cbn [first_match]; [reflexivity|].
  rewrite (Hnone q) by now left. apply IH. intros q' Hq'. apply Hnone. now right.
Qed.

Lemma first_match_total (ps : list regex) (text : str) :
  (forall p, In p ps -> In p patterns) ->
  exists v, first_match ps text = Ok v.
Proof.
  induction ps as [|p ps IH]; intros Hin; cbn [first_match].
  - now exists zero.
  - destruct (re_search p (lower text)) as [g|] eqn:E.
    + destruct (pattern_match_parses p _ g (Hin p (or_introl eq_refl)) E)
        as [w [v [_ [_ Hv]]]].
      now exists v.
    + apply IH. intros q Hq. apply Hin. now right.
Qed.

(** The currency symbol of the patterns matches in no text of the range. *)
Lemma currency_symbol_no_match (st : mstate) : run currency_symbol st = [].
Proof.
  assert (T : forall c, negb (is_code 8218 c) = true) by by_table.
  unfold currency_symbol. cbn [run].
  replace (step_if (is_code 8218) st) with (@nil mstate); [reflexivity|].
  unfold step_if. destruct (rest st) as [|c s]; [reflexivity|].
  specialize (T c). apply negb_true_iff in T. now rewrite T.
Qed.

(** ** The first match *)

Lemma first_seq (a b : regex) (st x y : mstate) :
  first a st x -> first b x y -> first (Seq a b) st y.
Proof.
  intros [tl Ha] [tl' Hb]. unfold first. cbn [run]. rewrite Ha.
  cbn [flat_map]. rewrite Hb. now eexists.
Qed.

Lemma first_alt_l (a b : regex) (st x : mstate) :
  first a st x -> first (Alt a b) st x.
Proof. intros [tl Ha]. unfold first. cbn [run]. rewrite Ha. now eexists. Qed.

Lemma first_alt_r (a b : regex) (st x : mstate) :
  run a st = [] -> first b st x -> first (Alt a b) st x.
Proof.
  intros Ha [tl Hb]. unfold first. cbn [run]. rewrite Ha, Hb. now eexists.
Qed.

Lemma first_opt_take (a : regex) (st x : mstate) :
  first a st x -> first (Opt a) st x.
Proof. intros [tl Ha]. unfold first. cbn [run]. rewrite Ha. now eexists. Qed.

Lemma first_opt_skip (a : regex) (st : mstate) :
  run a st = [] -> first (Opt a) st st.
Proof. intros Ha. unfold first. cbn [run]. rewrite Ha. now eexists. Qed.

Lemma first_lit (c : ascii) (s : str) (g : option str) :
  first (Lit (ord c)) (MState (c :: s) g) (MState s g).
Proof.
  unfold first. cbn [run]. unfold step_if, is_code. cbn [rest grp].
  rewrite N.eqb_refl. now eexists.
Qed.

Lemma first_lits (m s : str) (g : option str) :
  first (Lits m) (MState (m ++ s) g) (MState s g).
Proof.
  induction m as [|c m IH]; cbn [Lits app].
  - now exists [].
  - eapply first_seq; [apply first_lit|exact IH].
Qed.

Lemma step_if_stops (p : ascii -> bool) (v : str) (g : option str) :
  stops p v -> step_if p (MState v g) = [].
Proof.
  unfold step_if, stops. cbn [rest]. destruct v as [|c v]; [reflexivity|].
  now intros ->.
Qed.

Lemma star_loop_class (p : ascii -> bool) (u v : str) (g : option str) :
  Forall (fun c => p c = true) u -> stops p v ->
  forall n, length u <= n ->
  exists tl, star_loop (step_if p) n (MState (u ++ v) g) = MState v g :: tl.
Proof.
  intros Hu Hv. induction Hu as [|c u Hc _ IH]; intros n Hn.
  - cbn [app]. destruct n as [|n]; cbn [star_loop]; [now eexists|].
    rewrite step_if_stops by exact Hv. now eexists.
  - destruct n as [|n]; [cbn in Hn; lia|].
    destruct (IH n) as [tl E]; [cbn in Hn; lia|].
    change (star_loop (step_if p) (S n) (MState ((c :: u) ++ v) g))
      with (flat_map
              (fun st' =>
                 if length (rest st') <? length (c :: u ++ v)
                 then star_loop (step_if p) n st' else [])
              (if p c then [MState (u ++ v) g] else [])
            ++ [MState ((c :: u) ++ v) g]).
    rewrite Hc. cbn [flat_map rest].
    replace (length (u ++ v) <? length (c :: u ++ v)) with true
      by (symmetry; apply Nat.ltb_lt; cbn [length]; lia).
    rewrite E. now eexists.
Qed.

Lemma first_star_class (k : charclass) (u v : str) (g : option str) :
  Forall (fun c => in_class k c = true) u -> stops (in_class k) v ->
  first (Star (Class k)) (MState (u ++ v) g) (MState v g).
Proof.
  intros Hu Hv. unfold first. cbn [run rest].
  change (run (Class k)) with (step_if (in_class k)).
  apply star_loop_class; try assumption. rewrite length_app. lia.
Qed.

Lemma first_plus_class (k : charclass) (u v : str) (g : option str) :
  u <> [] -> Forall (fun c => in_class k c = true) u -> stops (in_class k) v ->
  first (Plus (Class k)) (MState (u ++ v) g) (MState v g).
Proof.
  intros Hne Hu Hv. destruct u as [|c u]; [now contradiction Hne|].
  inversion Hu; subst. unfold Plus. eapply first_seq.
  - unfold first. cbn [run app]. unfold step_if. cbn [rest grp].
    rewrite H1. now eexists.
  - now apply first_star_class.
Qed.

Lemma first_star_stop (a : regex) (st : mstate) :
  run a st = [] -> first (Star a) st st.
Proof.
  intros Ha. unfold first. cbn [run].
  destruct (length (rest st)); cbn [star_loop]; [now eexists|].
  rewrite Ha. now eexists.
Qed.

Lemma first_group (a : regex) (w s : str) (g g' : option str) :
  first a (MState (w ++ s) g) (MState s g') ->
  first (Group a) (MState (w ++ s) g) (MState s (Some w)).
Proof.
  intros [tl Ha]. unfold first. cbn [run]. rewrite Ha. cbn [map rest].
  rewrite firstn_consumed. now eexists.
Qed.

Lemma re_search_first (p : regex) (s : str) (x : mstate) :
  first p (MState s None) x -> re_search p s = Some (grp x).
Proof.
  intros [tl H]. destruct s; cbn [re_search]; unfold match_here;
    now rewrite H.
Qed.

(** ** A number with a fraction of one digit *)

Lemma space_or_digit_fixed :
  forall c, (negb (isspace c || isdecimal c || Ascii.eqb c point)
             || Ascii.eqb (lower_char c) c) = true.
Proof. by_table. Qed.

Lemma lower_fixed (s : str) :
  Forall (fun c => isspace c = true \/ isdecimal c = true \/ c = point) s ->
  lower s = s.
Proof.
  intros H. apply map_fixed. eapply Forall_impl; [|exact H].
  intros c Hc. pose proof (space_or_digit_fixed c) as F.
  apply Ascii.eqb_eq. destruct Hc as [Hc|[Hc| ->]]; [| |reflexivity];
    rewrite Hc in F; cbn in F; [exact F|].
  now rewrite orb_true_r in F.
Qed.

Lemma first_numeral_one_digit (ds : str) (d : ascii) (g : option str) :
  ds <> [] -> digits ds -> isdecimal d = true ->
  first numeral (MState (ds ++ [point; d]) g) (MState [point; d] g).
Proof.
  intros Hne Hds Hd. unfold numeral.
  eapply first_seq; [now apply first_plus_class|].
  eapply first_seq; [now apply first_star_stop|].
  apply first_opt_skip. cbn. unfold step_if. cbn. now rewrite Hd.
Qed.

Lemma first_currency (m t : str) :
  In m [lit "rs"; lit "rs."; lit "inr"] -> stops (is_code 46) t ->
  first currency (MState (m ++ t) None) (MState t None).
Proof.
  intros Hm Ht. unfold currency.
  destruct Hm as [<-|[<-|[<-|[]]]].
  - apply first_alt_l. eapply first_seq; [apply (first_lits (lit "rs"))|].
    apply first_opt_skip. cbn [run]. now apply step_if_stops.
  - apply first_alt_l.
    eapply first_seq; [apply (first_lits (lit "rs") (point :: t))|].
    apply first_opt_take. apply (first_lit point).
  - apply first_alt_r; [reflexivity|].
    apply first_alt_l. apply (first_lits (lit "inr")).
Qed.

Lemma first_one_digit_fraction (m ws ds : str) (d : ascii) :
  In m [lit "rs"; lit "rs."; lit "inr"] ->
  Forall (fun c => isspace c = true) ws ->
  ds <> [] -> digits ds -> isdecimal d = true ->
  first currency_then_number (MState (m ++ ws ++ ds ++ [point; d]) None)
        (MState [point; d] (Some ds)).
Proof.
  intros Hm Hws Hne Hds Hd.
  assert (Hhead : exists c t, ds = c :: t /\ isdecimal c = true).
  { destruct ds as [|c t]; [now contradiction Hne|]. inversion Hds; subst.
    now exists c, t. }
  destruct Hhead as [c [t [E Hc]]].
  unfold currency_then_number.
  eapply first_seq; [apply first_currency; [exact Hm|]|].
  - destruct ws as [|w ws]; cbn [app stops].
    + subst ds. cbn [app]. now apply digit_facts.
    + inversion Hws; subst. revert H1. generalize w. 
      assert (T : forall a, (negb (isspace a) || negb (is_code 46 a)) = true)
        by by_table.
      intros a Ha. specialize (T a). rewrite Ha in T. cbn in T.
      now apply negb_true_iff.
  - eapply first_seq.
    + apply first_star_class; [exact Hws|]. subst ds. cbn [app stops].
      now apply digit_facts.
    + apply first_group with (g' := None).
      now apply first_numeral_one_digit.
Qed.

(** ** The merchant extractor *)

Lemma starts_with_iff (p s : str) :
  starts_with p s = true <-> exists v, s = p ++ v.
Proof.
  revert s. induction p as [|a p IH]; intros s; cbn [starts_with].
  - split; [now exists s|reflexivity].
  - destruct s as [|b s].
    + split; [discriminate|]. now intros [v E].
    + rewrite andb_true_iff, Ascii.eqb_eq, IH. split.
      * intros [-> [v ->]]. now exists v.
      * intros [v E]. cbn in E. inversion E; subst. split; [reflexivity|].
        now exists v.
Qed.

(** [contains] is the substring test. *)
Lemma contains_iff (needle hay : str) :
  contains needle hay = true <-> exists u v, hay = u ++ needle ++ v.
Proof.
  induction hay as [|c hay IH]; cbn [contains]; rewrite orb_true_iff.
  - rewrite starts_with_iff. split.
    + intros [[v E]|E]; [|discriminate]. now exists [], v.
    + intros [u [v E]]. left. destruct u; [now exists v|discriminate].
  - rewrite starts_with_iff, IH. split.
    + intros [[v E]|[u [v E]]]; [now exists [], v|].
      exists (c :: u), v. cbn. now rewrite E.
    + intros [[|a u] [v E]]; [left; now exists v|right].
      cbn in E. inversion E; subst. now exists u, v.
Qed.

Lemma first_merchant_priority (ms1 ms2 : list str) (m text : str) :
  (forall q, In q ms1 -> contains q (lower text) = false) ->
  contains m (lower text) = true ->
  first_merchant (ms1 ++ m :: ms2) text = title m.
Proof.
  induction ms1 as [|q ms1 IH]; intros Hnone Hm; cbn [app first_merchant].
  - now rewrite Hm.
  - rewrite (Hnone q) by now left. apply IH; [|exact Hm].
    intros q' Hq'. apply Hnone. now right.
Qed.

Lemma first_merchant_none (ms : list str) (text : str) :
  (forall q, In q ms -> contains q (lower text) = false) ->
  first_merchant ms text = unknown_merchant.
Proof.
  induction ms as [|q ms IH]; intros Hnone; cbn [first_merchant]; [reflexivity|].
  rewrite (Hnone q) by now left. apply IH. intros q' Hq'. apply Hnone. now right.
Qed.

Lemma first_merchant_lower (ms : list str) (text text' : str) :
  lower text' = lower text -> first_merchant ms text' = first_merchant ms text.
Proof.
  intros E. induction ms as [|q ms IH]; cbn [first_merchant]; [reflexivity|].
  now rewrite E, IH.
Qed.

Lemma lower_char_idempotent :
  forall c, Ascii.eqb (lower_char (lower_char c)) (lower_char c) = true.
Proof. by_table. Qed.

Lemma lower_idempotent (s : str) : lower (lower s) = lower s.
Proof.
  unfold lower. rewrite map_map. apply map_ext. intros c.
  apply Ascii.eqb_eq, lower_char_idempotent.
Qed.

(** The merchant names are made of the letters a to z and spaces. *)
Lemma merchants_plain :
  forallb (forallb (fun c => in_range 97 122 c || is_code 32 c)) merchants = true.
Proof. vm_compute. reflexivity. Qed.

(** ** The endpoint *)

Section EndpointFacts.

Variables Vec Label : Type.
Variable round2 : float -> float.

Lemma categorize_sms_not_loaded (model : option (Model Vec Label))
      (vectorizer : option (Vectorizer Vec)) (now : str) (req : request) :
  model = None \/ vectorizer = None ->
  categorize_sms round2 model vectorizer now req = (model_not_loaded, []).
Proof.
  intros [->| ->]; [reflexivity|]. now destruct model.
Qed.

Lemma categorize_sms_missing (model : Model Vec Label)
      (vectorizer : Vectorizer Vec) (now : str) (req : request) (data : json) :
  get_json req = Ok data ->
  truthy data = false \/ has_key (lit "sms_text") data = Ok false ->
  categorize_sms round2 (Some model) (Some vectorizer) now req
  = (missing_sms_text, []).
Proof.
  intros E H. unfold categorize_sms, try_except, categorize_try, bind, lift.
  rewrite E. destruct (truthy data) eqn:T.
  - destruct H as [H|H]; [discriminate H|]. now rewrite H.
  - reflexivity.
Qed.

(** The clock enters the response in [processed_at] only. *)
Lemma categorize_sms_clock (model : option (Model Vec Label))
      (vectorizer : option (Vectorizer Vec)) (now1 now2 : str) (req : request) :
  extraction_result (fst (categorize_sms round2 model vectorizer now1 req))
  = extraction_result (fst (categorize_sms round2 model vectorizer now2 req))
  /\ status (fst (categorize_sms round2 model vectorizer now1 req))
     = status (fst (categorize_sms round2 model vectorizer now2 req))
  /\ snd (categorize_sms round2 model vectorizer now1 req)
     = snd (categorize_sms round2 model vectorizer now2 req).
Proof.
  unfold categorize_sms, try_except, categorize_try, categorize_handler,
    text_of, bind, lift, emit, ret.
  destruct model as [model|], vectorizer as [vectorizer|];
    try (repeat split; reflexivity).
  destruct (get_json req) as [data|e]; [|repeat split; reflexivity].
  destruct (truthy data); [|repeat split; reflexivity].
  destruct (has_key (lit "sms_text") data) as [[|]|e]; cbn [negb];
    try (repeat split; reflexivity).
  destruct (getitem (lit "sms_text") data) as [[| | |text| |]|e];
    try (repeat split; reflexivity).
  cbn [app].
  destruct (transform vectorizer [preprocess_text text]) as [v|e];
    [|repeat split; reflexivity].
  destruct (predict model v) as [labels|e]; [|repeat split; reflexivity].
  destruct (first_item labels) as [label|e]; [|repeat split; reflexivity].
  destruct (predict_proba model v) as [rows|e]; [|repeat split; reflexivity].
  destruct (first_item rows) as [row|e]; [|repeat split; reflexivity].
  destruct (py_max row) as [p|e]; [|repeat split; reflexivity].
  destruct (extract_amount_from_sms text) as [a|e]; repeat split; reflexivity.
Qed.

(** The response to a text is the result of the five steps. *)
Lemma categorize_sms_process (model : Model Vec Label)
      (vectorizer : Vectorizer Vec) (now : str) (text : str) :
  extraction_result
    (fst (categorize_sms round2 (Some model) (Some vectorizer) now
                         (text_request text)))
  = process round2 model vectorizer text.
Proof.
  unfold categorize_sms, try_except, categorize_try, categorize_handler,
    text_request, text_of, process, and_then, bind, lift, emit, ret.
  cbn [get_json truthy length Nat.eqb negb].
  change (has_key (lit "sms_text") (JDict [(lit "sms_text", JStr text)]))
    with (@Ok bool true).
  change (getitem (lit "sms_text") (JDict [(lit "sms_text", JStr text)]))
    with (Ok (JStr text)).
  cbn [negb app].
  destruct (transform vectorizer [preprocess_text text]) as [v|e];
    [|reflexivity].
  destruct (predict model v) as [labels|e]; [|reflexivity].
  destruct (first_item labels) as [label|e]; [|reflexivity].
  destruct (predict_proba model v) as [rows|e]; [|reflexivity].
  destruct (first_item rows) as [row|e]; [|reflexivity].
  destruct (py_max row) as [p|e]; [|reflexivity].
  destruct (extract_amount_from_sms text) as [a|e]; reflexivity.
Qed.

(** A result carries the reading of the clock. *)
Lemma categorize_sms_processed_at (model : option (Model Vec Label))
      (vectorizer : option (Vectorizer Vec)) (now : str) (req : request)
      (c : Label) (p a : float) (m t pa : str) :
  body (fst (categorize_sms round2 model vectorizer now req))
  = ResultBody c p a m t pa ->
  pa = now.
Proof.
  unfold categorize_sms, try_except, categorize_try, categorize_handler,
    text_of, bind, lift, emit, ret.
  destruct model as [model|], vectorizer as [vectorizer|];
    try (intros [=]; fail).
  destruct (get_json req) as [data|e]; [|intros [=]].
  destruct (truthy data); [|intros [=]].
  destruct (has_key (lit "sms_text") data) as [[|]|e]; cbn [negb];
    try (intros [=]; fail).
  destruct (getitem (lit "sms_text") data) as [[| | |text| |]|e];
    try (intros [=]; fail).
  cbn [app].
  destruct (transform vectorizer [preprocess_text text]) as [v|e];
    [|intros [=]].
  destruct (predict model v) as [labels|e]; [|intros [=]].
  destruct (first_item labels) as [label|e]; [|intros [=]].
  destruct (predict_proba model v) as [rows|e]; [|intros [=]].
  destruct (first_item rows) as [row|e]; [|intros [=]].
  destruct (py_max row) as [p'|e]; [|intros [=]].
  destruct (extract_amount_from_sms text) as [a'|e]; [|intros [=]].
  cbn. intros [= _ _ _ _ _ E]. now symmetry.
Qed.

Lemma load_models_failed (load_model : result (Model Vec Label))
      (load_vectorizer : result (Vectorizer Vec)) :
  (exists e, load_model = Raise e) \/ (exists e, load_vectorizer = Raise e) ->
  load_models load_model load_vectorizer = (None, None).
Proof.
  intros [[e ->]|[e ->]]; [reflexivity|]. now destruct load_model.
Qed.

End EndpointFacts.

(** * The claims *)

(** ** The normalizer *)

Lemma word_char_cases :
  forall c, (negb (word_char c) || lowercase_alnum c || Ascii.eqb c underscore) = true.
Proof. by_table. Qed.

Lemma preprocess_text_single_spaced (text : str) :
  single_spaced (preprocess_text text).
Proof.
  rewrite preprocess_text_join. pose proof (words_of_words text) as W.
  repeat split; intros.
  - now apply join_no_leading_space.
  - now apply join_no_trailing_space.
  - now apply join_no_double_space.
Qed.

(** C3, as stated, fails: the underscore is a word character of [\w], so it
    is kept, and it is not alphanumeric. *)
Lemma C3_underscore_kept :
  preprocess_text (lit "pay_now") = lit "pay_now"
  /\ ~ Forall (fun c => c = space \/ lowercase_alnum c = true)
              (preprocess_text (lit "pay_now")).
Proof.
  split; [vm_compute; reflexivity|].
  intros H. rewrite Forall_forall in H.
  destruct (H underscore) as [E|E]; [|discriminate E|discriminate E].
  vm_compute. tauto.
Qed.

(** C3, amended: for every input string the normalizer's output contains
    only spaces, underscores and alphanumeric characters that lower-casing
    leaves unchanged; it has no leading space, no trailing space and no two
    spaces in a row. *)
Theorem C3_preprocess_text_output (text : str) :
  Forall (fun c => c = space \/ c = underscore \/ lowercase_alnum c = true)
         (preprocess_text text)
  /\ single_spaced (preprocess_text text).
Proof.
  split; [|apply preprocess_text_single_spaced].
  eapply Forall_impl; [|apply preprocess_text_chars].
  intros c [->|Hc]; [now left|right].
  pose proof (word_char_cases c) as F. rewrite Hc in F. cbn in F.
  apply orb_true_iff in F. destruct F as [F|F]; [now right|left].
  now apply Ascii.eqb_eq.
Qed.

(** C8: the normalizer is idempotent. *)
Theorem C8_preprocess_text_idempotent (x : str) :
  preprocess_text (preprocess_text x) = preprocess_text x.
Proof.
  rewrite (preprocess_text_join (preprocess_text x)). unfold words_of at 1.
  pose proof (preprocess_text_chars x) as H.
  rewrite (text_chars_lower _ H), (text_chars_clean _ H).
  rewrite (preprocess_text_join x) at 1.
  rewrite split_join by apply words_of_words.
  symmetry. apply preprocess_text_join.
Qed.

(** ** The amount extractor *)



(** C2, as stated, fails: a fraction of one digit is not part of the
    capture, and the value returned for rs 10.5 is 10.0, not 10.5. *)
Lemma C2_one_digit_fraction_dropped :
  re_search currency_then_number (lower (lit "rs 10.5")) = Some (Some (lit "10"))
  /\ extract_amount_from_sms (lit "rs 10.5") = Ok (float_of_Z 10)
  /\ float_value (float_of_Z 10) = Some (10 # 1)%Q
  /\ float_value (float_of_ratio 105 1) = Some (21 # 2)%Q
  /\ extract_amount_from_sms (lit "rs 10.5") <> Ok (float_of_ratio 105 1).
Proof.
  repeat split; try (vm_compute; reflexivity). vm_compute. discriminate.
Qed.

(** C2, amended: each pattern captures a numeral whose fraction, when it has
    one, has exactly two digits.  For an input made of a currency marker
    (rs, rs. or inr, in any case), optional whitespace and a number with a
    fraction of one digit, the capture ends before the point and the value
    returned is that of the integer part (rs 10.5 gives 10.0). *)
Theorem C2_fraction_of_two_digits_or_none :
  (forall p s g, In p patterns -> re_search p s = Some g ->
                 exists w, g = Some w /\ numeral_text w)
  /\ (forall (m ws ds : str) (d : ascii),
        In (lower m) [lit "rs"; lit "rs."; lit "inr"] ->
        Forall (fun c => isspace c = true) ws ->
        ds <> [] -> digits ds -> isdecimal d = true ->
        re_search currency_then_number (lower (m ++ ws ++ ds ++ [point; d]))
        = Some (Some ds)
        /\ extract_amount_from_sms (m ++ ws ++ ds ++ [point; d])
           = Ok (float_of_Z (digits_value ds))).
Proof.
  split.
  - intros p s g Hp H.
    destruct (pattern_match_parses p s g Hp H) as [w [_ [-> [Hw _]]]].
    now exists w.
  - intros m ws ds d Hm Hws Hne Hds Hd.
    assert (E : lower (m ++ ws ++ ds ++ [point; d])
                = lower m ++ ws ++ ds ++ [point; d]).
    { unfold lower at 1. rewrite map_app. fold (lower m). f_equal.
      apply lower_fixed. rewrite !Forall_app. repeat split.
      - eapply Forall_impl; [|exact Hws]. now left.
      - eapply Forall_impl; [|exact Hds]. intros c Hc. right. now left.
      - constructor; [right; now right|].
        constructor; [right; now left|constructor]. }
    pose proof (first_one_digit_fraction (lower m) ws ds d Hm Hws Hne Hds Hd)
      as F.
    apply re_search_first in F. cbn [grp] in F. rewrite <- E in F.
    split; [exact F|].
    unfold extract_amount_from_sms, patterns. cbn [first_match]. rewrite F.
    cbn [amount_of_match]. fold comma. rewrite (replace_digits ds Hds).
    now apply py_float_digits.
Qed.

(** The text INR 1250.5, whose amount is read as 1250.0. *)
Lemma C2_fraction_of_two_digits_or_none_witness :
  extract_amount_from_sms (lit "INR 1250.5") = Ok (float_of_Z 1250).
Proof.
  apply (proj2 C2_fraction_of_two_digits_or_none
               (lit "INR") (lit " ") (lit "1250") "5"%char).
  - vm_compute. right. right. now left.
  - now repeat constructor.
  - discriminate.
  - now repeat constructor.
  - reflexivity.
Defined.

(** C6: the normalizer and the two extractors return a value on every
    string.  Whatever a pattern of the list captures is a numeral that
    [float] reads once the commas are removed, so that the amount extractor
    never raises; it returns 0.0 when no pattern matches. *)
Theorem C6_extractors_total (text : str) :
  (exists ws, preprocess_text text = join [space] ws)
  /\ In (extract_merchant_from_sms text) (unknown_merchant :: map title merchants)
  /\ (exists v, extract_amount_from_sms text = Ok v)
  /\ (forall p g, In p patterns -> re_search p (lower text) = Some g ->
        exists w v, g = Some w /\ numeral_text w
                    /\ py_float (replace comma [] w) = Ok v)
  /\ ((forall p, In p patterns -> re_search p (lower text) = None) ->
      extract_amount_from_sms text = Ok zero).
Proof.
  split; [|split; [|split; [|split]]].
  - exists (words_of text). apply preprocess_text_join.
  - unfold extract_merchant_from_sms. induction merchants as [|m ms IH].
    + now left.
    + cbn [first_merchant map]. destruct (contains m (lower text)).
      * right. now left.
      * destruct IH as [IH|IH]; [now left|right; now right].
  - apply first_match_total. auto.
  - intros p g Hp H.
    destruct (pattern_match_parses p _ g Hp H) as [w [v [-> [Hw Hv]]]].
    now exists w, v.
  - apply first_match_none.
Qed.

(** A text without digits: no pattern matches. *)
Lemma C6_extractors_total_witness :
  extract_amount_from_sms (lit "hello world") = Ok zero.
Proof.
  destruct (C6_extractors_total (lit "hello world")) as [_ [_ [_ [_ H]]]].
  apply H. intros p Hp. cbn in Hp.
  repeat (destruct Hp as [<-|Hp]; [vm_compute; reflexivity|]). destruct Hp.
Defined.

(** C10: the currency abbreviations are matched anywhere, also at the end of
    a longer word: in a text whose words are offers, 100 and today the first
    pattern matches at the rs of offers, and the amount is 100.0, not the
    0.0 of a text without amount. *)
Theorem C10_marker_inside_word :
  split (lower (lit "offers 100 today")) = [lit "offers"; lit "100"; lit "today"]
  /\ re_search currency_then_number (lower (lit "offers 100 today"))
     = Some (Some (lit "100"))
  /\ extract_amount_from_sms (lit "offers 100 today") = Ok (float_of_Z 100)
  /\ float_value (float_of_Z 100) = Some (100 # 1)%Q
  /\ float_of_Z 100 <> zero.
Proof.
  repeat split; try (vm_compute; reflexivity). vm_compute. discriminate.
Qed.

(** ** The merchant extractor *)

(** C5: the merchant extractor lower-cases the text, tests the vocabulary
    entries in their order for being a substring of it, and returns the
    title-cased form of the first entry that is one, or the sentinel when
    none is; so two texts that differ in case only have the same merchant. *)
Theorem C5_first_contained_merchant (text : str) :
  (forall ms1 m ms2,
      merchants = ms1 ++ m :: ms2 ->
      (forall q, In q ms1 -> ~ exists u v, lower text = u ++ q ++ v) ->
      (exists u v, lower text = u ++ m ++ v) ->
      extract_merchant_from_sms text = title m)
  /\ ((forall q, In q merchants -> ~ exists u v, lower text = u ++ q ++ v) ->
      extract_merchant_from_sms text = unknown_merchant)
  /\ (forall text', lower text' = lower text ->
                    extract_merchant_from_sms text' = extract_merchant_from_sms text)
  /\ extract_merchant_from_sms (lower text) = extract_merchant_from_sms text
  /\ map title merchants
     = map lit [ "Swiggy"; "Zomato"; "Amazon"; "Flipkart"; "Netflix"; "Uber";
                 "Ola"; "Pizza Hut"; "Dominos"; "Mcdonald"; "Starbucks";
                 "Big Bazaar"; "Dmart" ]%string.
Proof.
  assert (N : forall q, ~ (exists u v, lower text = u ++ q ++ v) ->
                        contains q (lower text) = false).
  { intros q Hq. destruct (contains q (lower text)) eqn:E; [|reflexivity].
    exfalso. apply Hq. now apply contains_iff. }
  repeat split.
  - intros ms1 m ms2 E Hnone Hm. unfold extract_merchant_from_sms. rewrite E.
    apply first_merchant_priority.
    + intros q Hq. now apply N, Hnone.
    + now apply contains_iff.
  - intros Hnone. apply first_merchant_none. intros q Hq. now apply N, Hnone.
  - intros text' E. now apply first_merchant_lower.
  - apply first_merchant_lower, lower_idempotent.
Qed.

(** SWIGGY order and swiggy order both give Swiggy. *)
Lemma C5_first_contained_merchant_witness :
  extract_merchant_from_sms (lit "SWIGGY order") = lit "Swiggy"
  /\ extract_merchant_from_sms (lit "swiggy order") = lit "Swiggy".
Proof.
  destruct (C5_first_contained_merchant (lit "swiggy order"))
    as [_ [_ [Hcase _]]].
  rewrite (Hcase (lit "SWIGGY order")) by (vm_compute; reflexivity).
  split; vm_compute; reflexivity.
Defined.

(** ** The pipeline and the endpoint *)

(** C4: the process operation is deterministic.  With a loaded classifier,
    two calls on the same text, whatever the clock shows at each, give
    identical extraction results (category, confidence, amount, merchant
    and original text all equal), with the same status and the same events:
    the extraction result is the result of the five steps of the pipeline,
    a function of the classifier and the text alone. *)
Theorem C4_process_deterministic (Vec Label : Type) (round2 : float -> float)
        (model : Model Vec Label) (vectorizer : Vectorizer Vec)
        (text now1 now2 : str) :
  let call now :=
    categorize_sms round2 (Some model) (Some vectorizer) now (text_request text)
  in
  extraction_result (fst (call now1)) = extraction_result (fst (call now2))
  /\ status (fst (call now1)) = status (fst (call now2))
  /\ snd (call now1) = snd (call now2)
  /\ extraction_result (fst (call now1)) = process round2 model vectorizer text.
Proof.
  cbn zeta.
  destruct (categorize_sms_clock Vec Label round2 (Some model) (Some vectorizer)
                                 now1 now2 (text_request text))
    as [H1 [H2 H3]].
  repeat split; try assumption.
  apply (categorize_sms_process Vec Label).
Qed.

(** C7: when the model or the vectorizer is missing, which is the case when
    loading either of them failed, every call of the endpoint answers with
    the error Model not loaded properly and status 500, without any event
    (nothing is classified); the answer carries no category and is not the
    answer to a body without sms_text. *)
Theorem C7_model_unavailable (Vec Label : Type) (round2 : float -> float)
        (model : option (Model Vec Label)) (vectorizer : option (Vectorizer Vec))
        (now : str) (req : request) :
  model = None \/ vectorizer = None ->
  categorize_sms round2 model vectorizer now req = (model_not_loaded, [])
  /\ extraction_result (@model_not_loaded Label) = None
  /\ status (@model_not_loaded Label) = 500
  /\ @model_not_loaded Label <> missing_sms_text
  /\ (forall load_model load_vectorizer,
         (exists e, load_model = Raise e) \/ (exists e, load_vectorizer = Raise e) ->
         @load_models Vec Label load_model load_vectorizer = (None, None)).
Proof.
  intros H. repeat split.
  - now apply (categorize_sms_not_loaded Vec Label).
  - discriminate.
  - apply (load_models_failed Vec Label).
Qed.

(** Loading the vectorizer failed; a text is sent. *)
Lemma C7_model_unavailable_witness :
  categorize_sms (fun x => x)
                 (fst (load_models (Ok stub_model) (Raise (OtherError "no file"))))
                 (snd (load_models (Ok stub_model) (Raise (OtherError "no file"))))
                 (lit "2026-01-01 10:00:00")
                 (text_request (lit "Rs 50 paid for bus fare"))
  = (model_not_loaded, []).
Proof.
  apply (C7_model_unavailable str str (fun x => x)). now left.
Defined.

(** C9: the check of the classifier comes before the body is read: when the
    model or the vectorizer is missing, every request gets the answer Model
    not loaded properly, also a request whose body has no sms_text, which
    with a loaded classifier gets the answer Please provide sms_text in
    JSON. *)
Theorem C9_availability_before_validation (Vec Label : Type)
        (round2 : float -> float)
        (model : option (Model Vec Label)) (vectorizer : option (Vectorizer Vec))
        (now : str) (req : request) :
  model = None \/ vectorizer = None ->
  fst (categorize_sms round2 model vectorizer now req) = model_not_loaded
  /\ fst (categorize_sms round2 model vectorizer now req) <> missing_sms_text
  /\ (forall (loaded_model : Model Vec Label)
             (loaded_vectorizer : Vectorizer Vec) data,
         get_json req = Ok data ->
         truthy data = false \/ has_key (lit "sms_text") data = Ok false ->
         fst (categorize_sms round2 (Some loaded_model) (Some loaded_vectorizer)
                             now req)
         = missing_sms_text).
Proof.
  intros H.
  rewrite (categorize_sms_not_loaded Vec Label round2 model vectorizer now req H).
  repeat split.
  - discriminate.
  - intros m v data E Hd.
    now rewrite (categorize_sms_missing Vec Label round2 m v now req data E Hd).
Qed.

(** A body with another field only, and no classifier. *)
Lemma C9_availability_before_validation_witness :
  fst (categorize_sms (fun x => x) (@None (Model str str)) (Some stub_vectorizer)
                      (lit "2026-01-01 10:00:00")
                      (Request (Ok (JDict [(lit "text", JStr (lit "Rs 50"))]))))
  = model_not_loaded
  /\ fst (categorize_sms (fun x => x) (Some stub_model) (Some stub_vectorizer)
                         (lit "2026-01-01 10:00:00")
                         (Request (Ok (JDict [(lit "text", JStr (lit "Rs 50"))]))))
     = missing_sms_text.
Proof.
  destruct (C9_availability_before_validation
              str str (fun x => x) (@None (Model str str)) (Some stub_vectorizer)
              (lit "2026-01-01 10:00:00")
              (Request (Ok (JDict [(lit "text", JStr (lit "Rs 50"))]))))
    as [H1 [_ H3]].
  - now left.
  - split; [exact H1|].
    apply (H3 stub_model stub_vectorizer
              (JDict [(lit "text", JStr (lit "Rs 50"))])); [reflexivity|].
    right. reflexivity.
Defined.

(** * Further properties *)

(** ** The normalizer *)

Lemma length_join_app (sep : str) (a b : list str) :
  length (join sep (a ++ b))
  <= length (join sep a) + length sep + length (join sep b).
Proof.
  induction a as [|w a IH]; [cbn; lia|].
  destruct a as [|w2 a].
  - destruct b as [|w3 b]; [cbn; lia|].
    change (join sep ([w] ++ w3 :: b)) with (w ++ sep ++ join sep (w3 :: b)).
    rewrite !length_app. cbn [join]. lia.
  - change (join sep ((w :: w2 :: a) ++ b))
      with (w ++ sep ++ join sep ((w2 :: a) ++ b)).
    rewrite join_cons_cons, !length_app. lia.
Qed.

Lemma length_flush (cur : str) : length (join [space] (flush cur)) = length cur.
Proof. now destruct cur. Qed.

Lemma length_join_split_from (s cur : str) :
  length (join [space] (split_from cur s)) <= length cur + length s.
Proof.
  revert cur. induction s as [|c s IH]; intros cur; cbn [split_from].
  - rewrite length_flush. cbn. lia.
  - destruct (isspace c).
    + pose proof (length_join_app [space] (flush cur) (split_from [] s)) as L.
      rewrite length_flush in L. specialize (IH []). cbn [length] in *. lia.
    + specialize (IH (cur ++ [c])). rewrite length_app in IH.
      cbn [length] in *. lia.
Qed.

(** The normalised text is never longer than the lower-cased text: the
    substitution puts one space for one character, and splitting and
    joining with single spaces adds nothing. *)
Theorem preprocess_text_length (text : str) :
  length (preprocess_text text) <= length (lower text).
Proof.
  rewrite preprocess_text_join. unfold words_of, split.
  pose proof (length_join_split_from (map clean_char (lower text)) []) as L.
  rewrite length_map in L. exact L.
Qed.

Lemma filter_fixed (p : ascii -> bool) (s : str) :
  Forall (fun c => p c = true) s -> filter p s = s.
Proof.
  induction 1 as [|c s Hc _ IH]; [reflexivity|]. cbn. now rewrite Hc, IH.
Qed.

Lemma filter_join_words (ws : list str) :
  Forall is_word ws -> filter not_space (join [space] ws) = concat ws.
Proof.
  induction ws as [|w ws IH]; intros H; [reflexivity|].
  inversion H as [|? ? [_ Hw] Hws]; subst.
  assert (Fw : filter not_space w = w).
  { apply filter_fixed. eapply Forall_impl; [|exact Hw].
    intros c Hc. unfold not_space. now rewrite Hc. }
  destruct ws as [|w2 ws].
  - cbn [join concat]. now rewrite app_nil_r.
  - rewrite join_cons_cons, !filter_app, Fw, (IH Hws). reflexivity.
Qed.

Lemma concat_flush (cur : str) : concat (flush cur) = cur.
Proof. destruct cur; [reflexivity|]. cbn. now rewrite app_nil_r. Qed.

Lemma concat_split_from (s cur : str) :
  concat (split_from cur s) = cur ++ filter not_space s.
Proof.
  revert cur. induction s as [|c s IH]; intros cur; cbn [split_from filter].
  - now rewrite concat_flush, app_nil_r.
  - unfold not_space at 1. destruct (isspace c); cbn [negb].
    + rewrite concat_app, concat_flush, IH. reflexivity.
    + rewrite IH, <- app_assoc. reflexivity.
Qed.

Lemma clean_char_kept :
  forall c, Ascii.eqb (if not_space (clean_char c) then "1" else "0")
                      (if isword c then "1" else "0")
            && (negb (isword c) || Ascii.eqb (clean_char c) c) = true.
Proof. by_table. Qed.

Lemma filter_clean (s : str) :
  filter not_space (map clean_char s) = filter isword s.
Proof.
  induction s as [|c s IH]; [reflexivity|]. cbn [map filter]. rewrite IH.
  pose proof (clean_char_kept c) as F. apply andb_true_iff in F.
  destruct F as [F1 F2].
  destruct (isword c), (not_space (clean_char c)); try discriminate F1.
  - cbn in F2. apply Ascii.eqb_eq in F2. now rewrite F2.
  - reflexivity.
Qed.

Lemma preprocess_text_filter (text : str) :
  filter not_space (preprocess_text text) = filter isword (lower text).
Proof.
  rewrite preprocess_text_join, filter_join_words by apply words_of_words.
  unfold words_of, split. rewrite concat_split_from. cbn [app].
  apply filter_clean.
Qed.

(** The characters of the normalised text other than its spaces are the
    word characters of the lower-cased text, in their order. *)
Theorem preprocess_text_keeps_word_chars (text : str) :
  filter not_space (preprocess_text text) = filter isword (lower text).
Proof. exact (preprocess_text_filter text). Qed.

Lemma isword_lower :
  forall c, Ascii.eqb (if isword (lower_char c) then "1" else "0")
                      (if isword c then "1" else "0") = true.
Proof. by_table. Qed.

Lemma filter_isword_lower (s : str) :
  filter isword (lower s) = [] <-> Forall (fun c => isword c = false) s.
Proof.
  induction s as [|c s IH]; cbn [lower map filter].
  - split; [constructor|reflexivity].
  - pose proof (isword_lower c) as F.
    destruct (isword (lower_char c)) eqn:E1, (isword c) eqn:E2;
      try discriminate F.
    + split; [discriminate|]. intros H. inversion H; subst. congruence.
    + fold (lower s). rewrite IH. split.
      * intros H. now constructor.
      * intros H. now inversion H.
Qed.

Lemma preprocess_text_nil_iff (text : str) :
  preprocess_text text = [] <-> Forall (fun c => isword c = false) text.
Proof.
  rewrite <- filter_isword_lower, <- preprocess_text_filter. split.
  - now intros ->.
  - intros H. destruct (preprocess_text text) as [|c s] eqn:E; [reflexivity|].
    exfalso. pose proof (preprocess_text_chars text) as C.
    pose proof (preprocess_text_single_spaced text) as [L _].
    rewrite E in *. inversion C as [|? ? [->|Hc] _]; subst.
    + now apply (L s).
    + cbn [filter] in H. unfold not_space in H.
      pose proof (word_char_fixed c) as F. rewrite Hc in F. cbn in F.
      rewrite !andb_true_iff in F. destruct F as [[_ F] _].
      rewrite F in H. discriminate H.
Qed.

(** The normalised text is empty exactly when the text has no word
    character (no letter, digit or underscore). *)
Theorem preprocess_text_empty_iff (text : str) :
  preprocess_text text = [] <-> Forall (fun c => isword c = false) text.
Proof. exact (preprocess_text_nil_iff text). Qed.

Lemma split_from_sep (u v cur : str) (c : ascii) :
  isspace c = true ->
  split_from cur (u ++ c :: v) = split_from cur u ++ split_from [] v.
Proof.
  intros Hc. revert cur. induction u as [|x u IH]; intros cur;
    cbn [app split_from].
  - now rewrite Hc.
  - destruct (isspace x).
    + now rewrite IH, app_assoc.
    + apply IH.
Qed.

Lemma separator_cleaned :
  forall c, (isword c || isspace (clean_char (lower_char c))) = true.
Proof. by_table. Qed.

Lemma words_of_sep (a b : str) (c : ascii) :
  isword c = false -> words_of (a ++ c :: b) = words_of a ++ words_of b.
Proof.
  intros Hc. unfold words_of, split, lower. rewrite !map_app. cbn [map].
  apply split_from_sep. pose proof (separator_cleaned c) as F.
  now rewrite Hc in F.
Qed.

Lemma words_of_normalised (text : str) :
  words_of (preprocess_text text) = words_of text.
Proof.
  unfold words_of at 1. pose proof (preprocess_text_chars text) as H.
  rewrite (text_chars_lower _ H), (text_chars_clean _ H).
  rewrite preprocess_text_join. apply split_join, words_of_words.
Qed.

(** For two texts that are already lower-case, joined by any character
    that is not a word character, normalising the whole is normalising the
    two normalised parts joined by a space. *)
Theorem preprocess_text_compose (a b : str) (c : ascii) :
  lower a = a -> lower b = b -> isword c = false ->
  preprocess_text (a ++ c :: b)
  = preprocess_text (preprocess_text a ++ space :: preprocess_text b).
Proof.
  intros _ _ Hc. rewrite (preprocess_text_join (a ++ c :: b)).
  rewrite (preprocess_text_join (_ ++ _)).
  rewrite (words_of_sep _ _ c Hc), (words_of_sep _ _ space eq_refl).
  now rewrite !words_of_normalised.
Qed.

(** A comma between two words. *)
Lemma preprocess_text_compose_witness :
  preprocess_text (lit "paid  rs.50" ++ ","%char :: lit "bus fare ")
  = preprocess_text (lit "paid rs 50" ++ space :: lit "bus fare").
Proof.
  rewrite (preprocess_text_compose (lit "paid  rs.50") (lit "bus fare ")
                                   ","%char eq_refl eq_refl eq_refl).
  vm_compute. reflexivity.
Defined.

(** ** The amount extractor: what a match needs *)

(** [re.search] returns a match within the text. *)
Lemma re_search_within (r : regex) (s : str) (g : option str) :
  re_search r s = Some g ->
  exists u w v, s = u ++ w ++ v /\ lang r w.
Proof.
  induction s as [|c s IH]; cbn [re_search]; unfold match_here.
  - destruct (run r (MState [] None)) as [|st l] eqn:E; cbn; [discriminate|].
    intros _. destruct (run_consumes r (MState [] None) st) as [w [Ew Lw]].
    { rewrite E. now left. }
    cbn [rest] in Ew. exists [], w, (rest st). now split.
  - destruct (run r (MState (c :: s) None)) as [|st l] eqn:E; cbn.
    + intros H. destruct (IH H) as [u [w [v [-> Lw]]]].
      exists (c :: u), w, v. now split.
    + intros _.
      destruct (run_consumes r (MState (c :: s) None) st) as [w [Ew Lw]].
      { rewrite E. now left. }
      cbn [rest] in Ew. exists [], w, (rest st). now split.
Qed.

Lemma lang_lits (m w : str) : lang (Lits m) w -> w = m.
Proof.
  revert w. induction m as [|c m IH]; intros w; cbn [Lits lang].
  - trivial.
  - intros [u [v [-> [[x [-> Hx]] Hv]]]]. rewrite (IH v Hv). cbn. f_equal.
    apply N.eqb_eq in Hx. unfold ord in Hx.
    rewrite <- (ascii_N_embedding x), <- (ascii_N_embedding c). now f_equal.
Qed.

Lemma lang_spaces (w : str) :
  lang spaces w -> Forall (fun c => isspace c = true) w.
Proof.
  intros [ws [-> Hws]]. induction Hws as [|x ws [c [-> Hc]] _ IH].
  - constructor.
  - cbn. now constructor.
Qed.

Lemma lang_currency_symbol (w : str) : ~ lang currency_symbol w.
Proof.
  assert (T : forall c, negb (is_code 8218 c) = true) by by_table.
  intros [u [v [_ [[c [_ Hc]] _]]]]. specialize (T c). rewrite Hc in T.
  discriminate T.
Qed.

(** The words of the currency marker. *)
Lemma lang_currency (w : str) :
  lang currency w -> In w [lit "rs"; lit "rs."; lit "inr"].
Proof.
  intros [H|[H|H]].
  - destruct H as [u [v [-> [Hu Hv]]]]. apply lang_lits in Hu. subst u.
    destruct Hv as [->|[c [-> Hc]]]; [now left|right; left].
    apply N.eqb_eq in Hc. unfold ord in Hc.
    rewrite <- (ascii_N_embedding c), Hc. reflexivity.
  - apply lang_lits in H. subst w. right. right. now left.
  - now apply lang_currency_symbol in H.
Qed.

Lemma numeral_text_head (w : str) :
  numeral_text w -> exists c t, w = c :: t /\ isdecimal c = true.
Proof.
  intros [ds [sep [frac [-> [Hne [Hds _]]]]]].
  destruct ds as [|c ds]; [now contradiction Hne|]. inversion Hds; subst.
  now exists c, (ds ++ sep ++ frac).
Qed.

(** The shape of the words of the five patterns. *)
Lemma lang_currency_then_number (w : str) :
  lang currency_then_number w ->
  exists m sp n, w = m ++ sp ++ n
                 /\ In m [lit "rs"; lit "rs."; lit "inr"]
                 /\ Forall (fun c => isspace c = true) sp /\ numeral_text n.
Proof.
  intros [m [v [-> [Hm [sp [n [-> [Hsp Hn]]]]]]]].
  exists m, sp, n. repeat split.
  - now apply lang_currency.
  - now apply lang_spaces.
  - now apply lang_numeral.
Qed.

Lemma lang_number_then_currency (w : str) :
  lang number_then_currency w ->
  exists n sp m, w = n ++ sp ++ m
                 /\ In m [lit "rs"; lit "rs."; lit "inr"]
                 /\ Forall (fun c => isspace c = true) sp /\ numeral_text n.
Proof.
  intros [n [v [-> [Hn [sp [m [-> [Hsp Hm]]]]]]]].
  exists n, sp, m. repeat split.
  - now apply lang_currency.
  - now apply lang_spaces.
  - now apply lang_numeral.
Qed.

Lemma lang_keyword_pattern (kw : string) (w : str) :
  lang (keyword_pattern kw) w ->
  exists mid n, w = lit kw ++ mid ++ n /\ numeral_text n.
Proof.
  intros [k [v [-> [Hk [sp [v2 [-> [_ [m [v3 [-> [_ [sp2 [n [-> [_ Hn]]]]]]]]]]]]]]]].
  apply lang_lits in Hk. subst k.
  exists (sp ++ m ++ sp2), n. split; [now rewrite <- !app_assoc|].
  now apply lang_numeral.
Qed.

Lemma Exists_digit_numeral (n : str) :
  numeral_text n -> Exists (fun c => isdecimal c = true) n.
Proof.
  intros H. destruct (numeral_text_head n H) as [c [t [-> Hc]]]. now left.
Qed.

Lemma pattern_word_has_digit (p : regex) (w : str) :
  In p patterns -> lang p w -> Exists (fun c => isdecimal c = true) w.
Proof.
  intros Hp Hw. cbn in Hp.
  destruct Hp as [<-|[<-|[<-|[<-|[<-|[]]]]]].
  - destruct (lang_currency_then_number w Hw) as [m [sp [n [-> [_ [_ Hn]]]]]].
    rewrite !Exists_app. right. right. now apply Exists_digit_numeral.
  - destruct (lang_number_then_currency w Hw) as [n [sp [m [-> [_ [_ Hn]]]]]].
    rewrite !Exists_app. left. now apply Exists_digit_numeral.
  - destruct (lang_keyword_pattern _ w Hw) as [mid [n [-> Hn]]].
    rewrite !Exists_app. right. right. now apply Exists_digit_numeral.
  - destruct (lang_keyword_pattern _ w Hw) as [mid [n [-> Hn]]].
    rewrite !Exists_app. right. right. now apply Exists_digit_numeral.
  - destruct (lang_keyword_pattern _ w Hw) as [mid [n [-> Hn]]].
    rewrite !Exists_app. right. right. now apply Exists_digit_numeral.
Qed.

Lemma isdecimal_lower :
  forall c, Ascii.eqb (if isdecimal (lower_char c) then "1" else "0")
                      (if isdecimal c then "1" else "0") = true.
Proof. by_table. Qed.

Lemma no_digit_lower (s : str) :
  Forall (fun c => isdecimal c = false) s ->
  Forall (fun c => isdecimal c = false) (lower s).
Proof.
  intros H. unfold lower. apply Forall_map. eapply Forall_impl; [|exact H].
  intros c Hc. pose proof (isdecimal_lower c) as F. rewrite Hc in F.
  now destruct (isdecimal (lower_char c)).
Qed.

Lemma no_digit_no_amount (text : str) :
  Forall (fun c => isdecimal c = false) text ->
  extract_amount_from_sms text = Ok zero.
Proof.
  intros H. apply first_match_none. intros p Hp.
  destruct (re_search p (lower text)) as [g|] eqn:E; [exfalso|reflexivity].
  destruct (re_search_within p _ g E) as [u [w [v [Es Lw]]]].
  pose proof (pattern_word_has_digit p w Hp Lw) as D.
  apply no_digit_lower in H. rewrite Es, !Forall_app in H.
  destruct H as [_ [H _]]. apply Exists_exists in D.
  destruct D as [c [Hin Hc]]. rewrite Forall_forall in H.
  rewrite (H c Hin) in Hc. discriminate Hc.
Qed.

(** A text without a digit has the amount 0.0. *)
Theorem extract_amount_no_digit (text : str) :
  Forall (fun c => isdecimal c = false) text ->
  extract_amount_from_sms text = Ok zero.
Proof. exact (no_digit_no_amount text). Qed.

(** A text of letters and punctuation. *)
Lemma extract_amount_no_digit_witness :
  extract_amount_from_sms (lit "Rs. spent at Amazon, amount debited!") = Ok zero.
Proof.
  apply extract_amount_no_digit. repeat constructor.
Defined.

(** A pattern matches only in a text that has its cue: a currency
    abbreviation for the first two, the keyword for the others. *)
Lemma currency_pattern_cue (p : regex) (s : str) (g : option str) :
  In p currency_patterns -> re_search p s = Some g ->
  contains (lit "rs") s = true \/ contains (lit "inr") s = true.
Proof.
  intros Hp H. destruct (re_search_within p s g H) as [u [w [v [-> Lw]]]].
  assert (M : exists m a b, w = a ++ m ++ b
                            /\ In m [lit "rs"; lit "rs."; lit "inr"]).
  { destruct Hp as [<-|[<-|[]]].
    - destruct (lang_currency_then_number w Lw) as [m [sp [n [-> [Hm _]]]]].
      now exists m, [], (sp ++ n).
    - destruct (lang_number_then_currency w Lw) as [n [sp [m [-> [Hm _]]]]].
      exists m, (n ++ sp), []. split; [|exact Hm].
      now rewrite app_nil_r, <- app_assoc. }
  destruct M as [m [a [b [-> Hm]]]].
  destruct Hm as [<-|[<-|[<-|[]]]]; [left|left|right]; apply contains_iff.
  - exists (u ++ a), (b ++ v). now rewrite <- !app_assoc.
  - exists (u ++ a), ("."%char :: b ++ v). now rewrite <- !app_assoc.
  - exists (u ++ a), (b ++ v). now rewrite <- !app_assoc.
Qed.

Lemma keyword_pattern_cue (kw : string) (s : str) (g : option str) :
  re_search (keyword_pattern kw) s = Some g -> contains (lit kw) s = true.
Proof.
  intros H. destruct (re_search_within _ s g H) as [u [w [v [-> Lw]]]].
  destruct (lang_keyword_pattern kw w Lw) as [mid [n [-> _]]].
  apply contains_iff. exists u, (mid ++ n ++ v). now rewrite <- !app_assoc.
Qed.

Lemma not_some_none {A : Type} (o : option A) :
  (forall a, o = Some a -> False) -> o = None.
Proof. destruct o as [a|]; [intros H; now destruct (H a)|reflexivity]. Qed.

(** A text that has neither a currency abbreviation (rs, inr) nor one of
    the keywords has the amount 0.0, whatever numbers it has. *)
Theorem extract_amount_no_cue (text : str) :
  (forall cue, In cue [lit "rs"; lit "inr"; lit "amount"; lit "debited";
                       lit "spent"] ->
               contains cue (lower text) = false) ->
  extract_amount_from_sms text = Ok zero.
Proof.
  intros H. apply first_match_none. intros p Hp. apply not_some_none.
  intros g E. cbn in Hp.
  destruct Hp as [<-|[<-|[<-|[<-|[<-|[]]]]]].
  - destruct (currency_pattern_cue _ _ g (or_introl eq_refl) E) as [C|C];
      rewrite H in C; try discriminate C; cbn; tauto.
  - destruct (currency_pattern_cue _ _ g (or_intror (or_introl eq_refl)) E)
      as [C|C]; rewrite H in C; try discriminate C; cbn; tauto.
  - apply keyword_pattern_cue in E. rewrite H in E; [discriminate E|].
    cbn; tauto.
  - apply keyword_pattern_cue in E. rewrite H in E; [discriminate E|].
    cbn; tauto.
  - apply keyword_pattern_cue in E. rewrite H in E; [discriminate E|].
    cbn; tauto.
Qed.

(** A payment of 500 without marker or keyword. *)
Lemma extract_amount_no_cue_witness :
  extract_amount_from_sms (lit "Paid 500 to Zomato, balance 1,250.00") = Ok zero.
Proof.
  apply extract_amount_no_cue. intros cue Hc. cbn in Hc.
  repeat (destruct Hc as [<-|Hc]; [vm_compute; reflexivity|]). destruct Hc.
Defined.

(** ** The amount extractor: the sign of the amount *)

Lemma shr_1_nonneg (mrs : shr_record) :
  (0 <= shr_m mrs)%Z -> (0 <= shr_m (shr_1 mrs))%Z.
Proof.
  destruct mrs as [m r s]. cbn [shr_m]. intros H.
  destruct m as [|[p|p|]|p]; cbn; lia.
Qed.

Lemma iter_pos_inv (A : Type) (P : A -> Prop) (f : A -> A) :
  (forall x, P x -> P (f x)) -> forall p x, P x -> P (iter_pos f p x).
Proof.
  intros Hf p. induction p as [p IH|p IH|]; intros x Hx; cbn [iter_pos]; auto.
Qed.

Lemma shr_nonneg (mrs : shr_record) (e n : Z) :
  (0 <= shr_m mrs)%Z -> (0 <= shr_m (fst (shr mrs e n)))%Z.
Proof.
  intros H. unfold shr. destruct n as [|p|p]; cbn [fst]; try exact H.
  apply (iter_pos_inv _ (fun r => (0 <= shr_m r)%Z)); [|exact H].
  apply shr_1_nonneg.
Qed.

Lemma shr_fexp_nonneg (m e : Z) (l : location) :
  (0 <= m)%Z -> (0 <= shr_m (fst (shr_fexp prec emax m e l)))%Z.
Proof.
  intros H. unfold shr_fexp. apply shr_nonneg. now destruct l as [|[| |]].
Qed.

Lemma round_nearest_even_nonneg (m : Z) (l : location) :
  (0 <= m)%Z -> (0 <= round_nearest_even m l)%Z.
Proof.
  intros H. unfold round_nearest_even.
  destruct l as [|[| |]]; try destruct (Z.even m); lia.
Qed.

Lemma binary_round_aux_nonneg (m e : Z) (l : location) :
  (0 <= m)%Z -> nonneg_float (binary_round_aux prec emax false m e l).
Proof.
  intros H. unfold binary_round_aux.
  pose proof (shr_fexp_nonneg m e l H) as H1.
  destruct (shr_fexp prec emax m e l) as [mrs' e']. cbn [fst] in H1.
  pose proof (shr_fexp_nonneg _ e' loc_Exact
                (round_nearest_even_nonneg _ (loc_of_shr_record mrs') H1)) as H2.
  destruct (shr_fexp prec emax
                     (round_nearest_even (shr_m mrs') (loc_of_shr_record mrs'))
                     e' loc_Exact) as [mrs'' e''].
  cbn [fst] in H2. destruct (shr_m mrs'') as [|p|p]; [exact I| |lia].
  match goal with |- context [if ?b then _ else _] => destruct b end; exact I.
Qed.

(** A quotient of numbers that are not negative is read as a float that is
    not negative. *)
Lemma float_of_ratio_nonneg (m : Z) (k : nat) :
  (0 <= m)%Z -> nonneg_float (float_of_ratio m k).
Proof.
  intros H. unfold float_of_ratio. destruct m as [|p|p]; [exact I| |lia].
  unfold SFdiv_core_binary.
  set (s := (0 - 0 - _)%Z). set (m' := match s with Z0 => _ | _ => _ end).
  assert (Hm : (0 <= m')%Z).
  { unfold m'. destruct s; try lia. apply Z.shiftl_nonneg. lia. }
  pose proof (Z.div_pos m' (10 ^ Z.of_nat k) Hm) as Hq.
  unfold Z.div in Hq.
  destruct (Z.div_eucl m' (10 ^ Z.of_nat k)) as [q r]. cbn [fst] in Hq.
  apply binary_round_aux_nonneg. apply Hq. apply Z.pow_pos_nonneg; lia.
Qed.

Lemma digit_value_nonneg :
  forall c, (negb (isdecimal c) || (0 <=? digit_value c)%Z) = true.
Proof. by_table. Qed.

Lemma digits_value_nonneg (ds : str) : digits ds -> (0 <= digits_value ds)%Z.
Proof.
  unfold digits_value. intros H.
  assert (G : forall acc, (0 <= acc)%Z ->
                (0 <= fold_left (fun a c => 10 * a + digit_value c) ds acc)%Z).
  { induction H as [|c ds Hc _ IH]; intros acc Ha; cbn [fold_left];
      [exact Ha|].
    apply IH. pose proof (digit_value_nonneg c) as F. rewrite Hc in F.
    cbn in F. apply Z.leb_le in F. lia. }
  apply G. lia.
Qed.

(** The value read from a text of the capture group is a quotient of a
    natural number and a power of ten. *)
Lemma numeral_text_value (w : str) :
  numeral_text w ->
  exists m k, (0 <= m)%Z
              /\ py_float (replace comma [] w) = Ok (float_of_ratio m k).
Proof.
  intros [ds [sep [frac [-> [Hne [Hds [Hsep Hfrac]]]]]]].
  rewrite !replace_app, (replace_digits ds Hds).
  pose proof (replace_separated sep Hsep) as Hs.
  set (ds2 := replace comma [] sep) in *.
  assert (Hne' : ds ++ ds2 <> []) by (destruct ds; [easy|discriminate]).
  assert (Hd' : digits (ds ++ ds2)) by (apply Forall_app; now split).
  destruct Hfrac as [->|[a [b [-> Hab]]]].
  - cbn [replace flat_map]. rewrite app_nil_r.
    exists (digits_value (ds ++ ds2)), 0. split.
    + now apply digits_value_nonneg.
    + now apply py_float_digits.
  - assert (E : replace comma [] [point; a; b] = point :: [a; b]).
    { apply replace_absent. constructor; [reflexivity|].
      eapply Forall_impl; [|exact Hab]. intros c Hc. now apply digit_facts. }
    rewrite E, app_assoc.
    exists (digits_value ((ds ++ ds2) ++ [a; b])), (length [a; b]). split.
    + apply digits_value_nonneg. apply Forall_app. now split.
    + now apply py_float_fraction.
Qed.

Lemma first_match_nonneg (ps : list regex) (text : str) :
  (forall p, In p ps -> In p patterns) ->
  exists v, first_match ps text = Ok v /\ nonneg_float v.
Proof.
  induction ps as [|p ps IH]; intros Hin; cbn [first_match].
  - now exists zero.
  - destruct (re_search p (lower text)) as [g|] eqn:E.
    + destruct (patterns_capture p (Hin p (or_introl eq_refl))) as [G S].
      destruct (re_search_captured numeral_text p _ g G S E) as [w [-> Hw]].
      destruct (numeral_text_value w Hw) as [m [k [Hm Hv]]].
      exists (float_of_ratio m k). split; [exact Hv|].
      now apply float_of_ratio_nonneg.
    + apply IH. intros q Hq. apply Hin. now right.
Qed.

(** The amount is zero, a positive number or plus infinity: never a
    negative number (a minus sign in front of the digits is not read) and
    never a NaN. *)
Theorem extract_amount_nonneg (text : str) :
  exists v, extract_amount_from_sms text = Ok v /\ nonneg_float v.
Proof. apply first_match_nonneg. auto. Qed.

Example extract_amount_minus :
  extract_amount_from_sms (lit "balance Rs -250.00") = Ok zero
  /\ extract_amount_from_sms (lit "debited -250.00") = Ok zero
  /\ extract_amount_from_sms (lit "Rs.-250 INR") = Ok (float_of_Z 250).
Proof. repeat split; vm_compute; reflexivity. Qed.

(** ** The amount extractor: numbers with commas and a fraction *)

Lemma flat_map_ext_in (A B : Type) (f g : A -> list B) (l : list A) :
  (forall x, In x l -> f x = g x) -> flat_map f l = flat_map g l.
Proof.
  induction l as [|x l IH]; intros H; [reflexivity|]. cbn.
  rewrite (H x) by now left. rewrite IH; [reflexivity|].
  intros y Hy. apply H. now right.
Qed.

Lemma run_length (a : regex) (st st' : mstate) :
  In st' (run a st) -> length (rest st') <= length (rest st).
Proof.
  intros H. destruct (run_consumes a st st' H) as [w [E _]].
  rewrite E, length_app. lia.
Qed.

(** The loop of [a*] does not depend on its fuel, once it has enough. *)
Lemma star_loop_fuel (a : regex) (n : nat) :
  forall m st, length (rest st) <= n -> length (rest st) <= m ->
               star_loop (run a) n st = star_loop (run a) m st.
Proof.
  induction n as [|n IH]; intros m st Hn Hm.
  - destruct m as [|m]; [reflexivity|]. cbn [star_loop]. f_equal.
    rewrite (flat_map_ext_in _ _ _ (fun _ => [])).
    + now induction (run a st).
    + intros st' H. apply run_length in H.
      replace (length (rest st') <? length (rest st)) with false; [reflexivity|].
      symmetry. apply Nat.ltb_ge. lia.
  - destruct m as [|m].
    + cbn [star_loop]. rewrite (flat_map_ext_in _ _ _ (fun _ => [])).
      * now induction (run a st).
      * intros st' H. apply run_length in H.
        replace (length (rest st') <? length (rest st)) with false;
          [reflexivity|].
        symmetry. apply Nat.ltb_ge. lia.
    + cbn [star_loop]. f_equal. apply flat_map_ext_in. intros st' H.
      destruct (length (rest st') <? length (rest st)) eqn:E; [|reflexivity].
      apply Nat.ltb_lt in E. apply IH; lia.
Qed.

(** One more turn of the loop in front of a first match. *)
Lemma first_star_step (a : regex) (st st1 x : mstate) :
  first a st st1 -> length (rest st1) < length (rest st) ->
  first (Star a) st1 x -> first (Star a) st x.
Proof.
  intros [tl Ha] Hlt [tl' Hs]. unfold first in *. cbn [run] in *.
  destruct (length (rest st)) as [|n] eqn:En; [lia|].
  cbn [star_loop]. rewrite Ha. cbn [flat_map].
  replace (length (rest st1) <? length (rest st)) with true
    by (symmetry; apply Nat.ltb_lt; lia).
  rewrite (star_loop_fuel a n (length (rest st1)) st1) by lia.
  rewrite Hs. now eexists.
Qed.

Lemma stops_weaken (p q : ascii -> bool) (v : str) :
  (forall c, q c = false -> p c = false) -> stops q v -> stops p v.
Proof. intros H. destruct v as [|c v]; [trivial|]. cbn. apply H. Qed.

Lemma stops_groups (p : ascii -> bool) (gs : list str) (F : str) :
  p comma = false -> stops p F ->
  stops p (concat (map (fun g => comma :: g) gs) ++ F).
Proof. intros Hc HF. destruct gs as [|g gs]; [exact HF|exact Hc]. Qed.

(** The groups of digits after the first one. *)
Lemma first_comma_groups (gs : list str) (F : str) (g : option str) :
  digit_groups gs -> stops isdecimal F ->
  run (Seq (Lit 44) (Plus (Class Digit))) (MState F g) = [] ->
  first (Star (Seq (Lit 44) (Plus (Class Digit))))
        (MState (concat (map (fun g => comma :: g) gs) ++ F) g) (MState F g).
Proof.
  intros Hgs HF1 HF2. induction Hgs as [|g1 gs [Hne Hd] _ IH].
  - now apply first_star_stop.
  - cbn [map concat]. rewrite <- app_assoc. cbn [app].
    set (R := concat (map (fun g => comma :: g) gs) ++ F) in *.
    eapply first_star_step; [| |exact IH].
    + eapply first_seq; [apply (first_lit comma)|].
      apply first_plus_class; [exact Hne|exact Hd|].
      now apply stops_groups.
    + cbn [rest length]. rewrite length_app. lia.
Qed.

Lemma first_two_digits (a b : ascii) (tail : str) (g : option str) :
  digits [a; b] ->
  first (Rep 2 (Class Digit)) (MState (a :: b :: tail) g) (MState tail g).
Proof.
  intros H. inversion H as [|? ? Ha H']; subst.
  inversion H' as [|? ? Hb _]; subst.
  unfold first. cbn [run rep_loop]. unfold step_if. cbn [rest grp in_class].
  rewrite Ha. cbn [flat_map rest grp]. rewrite Hb. cbn. now eexists.
Qed.

(** The numeral with a fraction of two digits, and the numeral without a
    fraction. *)
Lemma first_numeral_fraction (d0 : str) (gs : list str) (a b : ascii)
      (tail : str) (g : option str) :
  d0 <> [] -> digits d0 -> digit_groups gs -> digits [a; b] ->
  first numeral (MState (grouped d0 gs ++ point :: a :: b :: tail) g)
        (MState tail g).
Proof.
  intros Hne Hd Hgs Hab. unfold numeral, grouped. rewrite <- app_assoc.
  eapply first_seq.
  - apply first_plus_class; [exact Hne|exact Hd|]. now apply stops_groups.
  - eapply first_seq.
    + now apply first_comma_groups.
    + apply first_opt_take. eapply first_seq; [apply (first_lit point)|].
      now apply first_two_digits.
Qed.

(** What the end of a number means for the matcher. *)
Lemma number_end_stops (tail : str) (g : option str) :
  number_end tail = true ->
  stops isdecimal tail
  /\ run (Seq (Lit 44) (Plus (Class Digit))) (MState tail g) = []
  /\ run (Seq (Lit 46) (Rep 2 (Class Digit))) (MState tail g) = [].
Proof.
  destruct tail as [|c t]; [now repeat split|].
  cbn [number_end]. rewrite !andb_true_iff, !negb_true_iff.
  intros [[H1 H2] H3]. split; [exact H1|].
  cbn [run Plus rep_loop]. unfold step_if. cbn [rest grp in_class]. split.
  - destruct (is_code 44 c); [|reflexivity]. cbn in H2.
    destruct t as [|d t]; [reflexivity|]. cbn. now rewrite H2.
  - destruct (is_code 46 c); [|reflexivity]. cbn in H3.
    destruct t as [|d1 [|d2 t]]; cbn; try reflexivity.
    + now destruct (isdecimal d1).
    + destruct (isdecimal d1); [|reflexivity]. cbn in H3. cbn.
      now rewrite H3.
Qed.

Lemma first_numeral_whole (d0 : str) (gs : list str) (tail : str)
      (g : option str) :
  d0 <> [] -> digits d0 -> digit_groups gs -> number_end tail = true ->
  first numeral (MState (grouped d0 gs ++ tail) g) (MState tail g).
Proof.
  intros Hne Hd Hgs Ht. unfold numeral, grouped. rewrite <- app_assoc.
  destruct (number_end_stops tail g Ht) as [T1 [T2 T3]].
  eapply first_seq.
  - apply first_plus_class; [exact Hne|exact Hd|]. now apply stops_groups.
  - eapply first_seq.
    + now apply first_comma_groups.
    + now apply first_opt_skip.
Qed.

Lemma grouped_head (d0 : str) (gs : list str) :
  d0 <> [] -> digits d0 ->
  exists c t, grouped d0 gs = c :: t /\ isdecimal c = true.
Proof.
  intros Hne Hd. destruct d0 as [|c d0]; [now contradiction Hne|].
  inversion Hd; subst. now exists c, (d0 ++ concat (map (fun g => comma :: g) gs)).
Qed.

(** The first pattern at the head of a marker, whitespace and a number:
    the capture is the number, up to where the numeral ends. *)
Lemma first_marker_number (m ws num rest' : str) :
  In m [lit "rs"; lit "rs."; lit "inr"] ->
  Forall (fun c => isspace c = true) ws ->
  (exists c t, num = c :: t /\ isdecimal c = true) ->
  first numeral (MState (num ++ rest') None) (MState rest' None) ->
  first currency_then_number (MState (m ++ ws ++ num ++ rest') None)
        (MState rest' (Some num)).
Proof.
  intros Hm Hws [c [t [E Hc]]] Hn. unfold currency_then_number.
  eapply first_seq; [apply first_currency; [exact Hm|]|].
  - destruct ws as [|w ws]; cbn [app stops].
    + subst num. cbn [app]. now apply digit_facts.
    + inversion Hws; subst.
      assert (T : forall a, (negb (isspace a) || negb (is_code 46 a)) = true)
        by by_table.
      specialize (T w). rewrite H1 in T. cbn in T. now apply negb_true_iff.
  - eapply first_seq.
    + apply first_star_class; [exact Hws|]. subst num. cbn [app stops].
      now apply digit_facts.
    + now apply first_group with (g' := None).
Qed.

Lemma replace_groups (gs : list str) :
  digit_groups gs ->
  replace comma [] (concat (map (fun g => comma :: g) gs)) = concat gs.
Proof.
  induction 1 as [|g gs [_ Hd] _ IH]; [reflexivity|].
  cbn [map concat]. rewrite replace_app, IH.
  change (comma :: g) with ([comma] ++ g). rewrite replace_app.
  now rewrite (replace_digits g Hd).
Qed.

Lemma replace_grouped (d0 : str) (gs : list str) :
  digits d0 -> digit_groups gs ->
  replace comma [] (grouped d0 gs) = ungrouped d0 gs.
Proof.
  intros Hd Hgs. unfold grouped, ungrouped.
  now rewrite replace_app, (replace_digits d0 Hd), replace_groups.
Qed.

Lemma digits_ungrouped (d0 : str) (gs : list str) :
  digits d0 -> digit_groups gs -> digits (ungrouped d0 gs).
Proof.
  intros Hd Hgs. apply Forall_app. split; [exact Hd|].
  induction Hgs as [|g gs [_ Hg] _ IH]; [constructor|].
  cbn [concat]. apply Forall_app. now split.
Qed.

Lemma number_char_fixed :
  forall c, (negb (isspace c || isdecimal c || is_code 46 c || is_code 44 c)
             || Ascii.eqb (lower_char c) c) = true.
Proof. by_table. Qed.

Lemma lower_number_fixed (s : str) :
  Forall (fun c => (isspace c || isdecimal c || is_code 46 c || is_code 44 c)
                   = true) s ->
  lower s = s.
Proof.
  intros H. apply map_fixed. eapply Forall_impl; [|exact H].
  intros c Hc. pose proof (number_char_fixed c) as F. rewrite Hc in F.
  now apply Ascii.eqb_eq.
Qed.

Lemma grouped_chars (d0 : str) (gs : list str) :
  digits d0 -> digit_groups gs ->
  Forall (fun c => (isspace c || isdecimal c || is_code 46 c || is_code 44 c)
                   = true) (grouped d0 gs).
Proof.
  intros Hd Hgs.
  assert (D : forall s, digits s ->
                Forall (fun c => (isspace c || isdecimal c || is_code 46 c
                                  || is_code 44 c) = true) s).
  { intros s Hs. eapply Forall_impl; [|exact Hs]. intros c Hc.
    rewrite Hc. now rewrite orb_true_r. }
  apply Forall_app. split; [now apply D|].
  induction Hgs as [|g gs [_ Hg] _ IH]; [constructor|].
  cbn [map concat]. constructor; [reflexivity|].
  apply Forall_app. split; [now apply D|exact IH].
Qed.

Lemma lower_marker_number (m ws d0 : str) (gs : list str) (tail : str) :
  Forall (fun c => isspace c = true) ws -> digits d0 -> digit_groups gs ->
  lower (m ++ ws ++ grouped d0 gs ++ tail)
  = lower m ++ ws ++ grouped d0 gs ++ lower tail.
Proof.
  intros Hws Hd Hgs. unfold lower. rewrite !map_app. fold (lower ws).
  fold (lower (grouped d0 gs)).
  rewrite (lower_number_fixed ws), (lower_number_fixed (grouped d0 gs)).
  - reflexivity.
  - now apply grouped_chars.
  - eapply Forall_impl; [|exact Hws]. intros c Hc. now rewrite Hc.
Qed.

Lemma number_char_lower :
  forall c, Ascii.eqb (if isdecimal (lower_char c) then "1" else "0")
                      (if isdecimal c then "1" else "0")
            && Ascii.eqb (if is_code 44 (lower_char c) then "1" else "0")
                         (if is_code 44 c then "1" else "0")
            && Ascii.eqb (if is_code 46 (lower_char c) then "1" else "0")
                         (if is_code 46 c then "1" else "0") = true.
Proof. by_table. Qed.

Lemma number_char_lower_eq (c : ascii) :
  isdecimal (lower_char c) = isdecimal c
  /\ is_code 44 (lower_char c) = is_code 44 c
  /\ is_code 46 (lower_char c) = is_code 46 c.
Proof.
  pose proof (number_char_lower c) as F. rewrite !andb_true_iff in F.
  destruct F as [[F1 F2] F3].
  destruct (isdecimal (lower_char c)), (isdecimal c),
    (is_code 44 (lower_char c)), (is_code 44 c),
    (is_code 46 (lower_char c)), (is_code 46 c);
    try discriminate F1; try discriminate F2; try discriminate F3;
    now repeat split.
Qed.

Lemma number_end_lower (tail : str) :
  number_end (lower tail) = number_end tail.
Proof.
  destruct tail as [|c [|d1 [|d2 t]]]; cbn [lower map number_end];
    try reflexivity;
    destruct (number_char_lower_eq c) as [-> [-> ->]];
    try destruct (number_char_lower_eq d1) as [-> _];
    try destruct (number_char_lower_eq d2) as [-> _]; reflexivity.
Qed.

(** ** The amount extractor: text in front of the marker *)

Lemma first_digit_unique (A B R T : str) (d c : ascii) :
  Forall (fun x => isdecimal x = false) A ->
  Forall (fun x => isdecimal x = false) B ->
  isdecimal d = true -> isdecimal c = true ->
  A ++ d :: R = B ++ c :: T -> A = B.
Proof.
  intros HA. revert B. induction HA as [|a A Ha _ IH]; intros B HB Hd Hc E.
  - destruct B as [|b B]; [reflexivity|]. cbn in E. inversion E; subst.
    inversion HB; subst. congruence.
  - destruct B as [|b B].
    + cbn in E. inversion E; subst. congruence.
    + cbn in E. inversion E; subst. inversion HB; subst.
      f_equal. now apply IH.
Qed.

Lemma trailing_spaces_unique (X Y ws sp : str) (x y : ascii) :
  Forall (fun c => isspace c = true) ws ->
  Forall (fun c => isspace c = true) sp ->
  isspace x = false -> isspace y = false ->
  (X ++ [x]) ++ ws = (Y ++ [y]) ++ sp -> X ++ [x] = Y ++ [y].
Proof.
  intros Hws Hsp Hx Hy E. apply (f_equal (@rev ascii)) in E.
  rewrite !rev_app_distr in E. cbn [rev app] in E.
  assert (G : forall a b p q u v,
             Forall (fun c => isspace c = true) a ->
             Forall (fun c => isspace c = true) b ->
             isspace p = false -> isspace q = false ->
             a ++ p :: u = b ++ q :: v -> p :: u = q :: v).
  { intros a. induction a as [|s a IH]; intros b p q u v Ha Hb Hp Hq E'.
    - destruct b as [|t b]; [exact E'|]. cbn in E'. inversion E'; subst.
      inversion Hb; subst. congruence.
    - inversion Ha; subst. destruct b as [|t b].
      + cbn in E'. inversion E'; subst. congruence.
      + cbn in E'. inversion E'; subst. inversion Hb; subst.
        now apply (IH b p q u v). }
  apply (G (rev ws) (rev sp) x y (rev X) (rev Y)) in E; try assumption;
    try now apply Forall_rev.
  apply (f_equal (@rev ascii)) in E. cbn [rev] in E.
  now rewrite !rev_involutive in E.
Qed.

Lemma marker_chars (m : str) :
  In m [lit "rs"; lit "rs."; lit "inr"] ->
  Forall (fun c => isdecimal c = false) m
  /\ exists X x, m = X ++ [x] /\ isspace x = false.
Proof.
  intros [<-|[<-|[<-|[]]]]; (split; [now repeat constructor|]).
  - now exists (lit "r"), "s"%char.
  - now exists (lit "rs"), "."%char.
  - now exists (lit "in"), "r"%char.
Qed.

Lemma marker_not_suffix (v m m' : str) :
  v <> [] -> In m [lit "rs"; lit "rs."; lit "inr"] ->
  In m' [lit "rs"; lit "rs."; lit "inr"] -> v ++ m <> m'.
Proof.
  intros Hv Hm Hm' E. apply (f_equal (@length ascii)) in E as L.
  rewrite length_app in L.
  destruct v as [|x [|y v]]; [now apply Hv| |];
    destruct Hm as [<-|[<-|[<-|[]]]]; destruct Hm' as [<-|[<-|[<-|[]]]];
    cbn in L; try lia; discriminate E.
Qed.

Lemma no_digit_spaces (ws : str) :
  Forall (fun c => isspace c = true) ws ->
  Forall (fun c => isdecimal c = false) ws.
Proof.
  intros H. eapply Forall_impl; [|exact H]. intros c Hc.
  destruct (isdecimal c) eqn:E; [|reflexivity].
  apply digit_facts in E. destruct E as [E _]. congruence.
Qed.

(** In front of a marker that a number follows, the first pattern has no
    match that begins in a text without digits. *)
Lemma no_match_before_marker (v m ws num rest' : str) :
  v <> [] -> Forall (fun c => isdecimal c = false) v ->
  In m [lit "rs"; lit "rs."; lit "inr"] ->
  Forall (fun c => isspace c = true) ws ->
  (exists c t, num = c :: t /\ isdecimal c = true) ->
  match_here currency_then_number (v ++ m ++ ws ++ num ++ rest') = None.
Proof.
  intros Hv Hnd Hm Hws [d [t [-> Hd]]]. unfold match_here.
  destruct (run currency_then_number (MState (v ++ m ++ ws ++ (d :: t) ++ rest') None))
    as [|st l] eqn:E; [reflexivity|exfalso].
  destruct (run_consumes currency_then_number
              (MState (v ++ m ++ ws ++ (d :: t) ++ rest') None) st)
    as [w [Ew Lw]].
  { rewrite E. now left. }
  cbn [rest] in Ew.
  destruct (lang_currency_then_number w Lw) as [m' [sp [n [-> [Hm' [Hsp Hn]]]]]].
  destruct (numeral_text_head n Hn) as [c [t' [-> Hc]]].
  destruct (marker_chars m Hm) as [Dm [X [x [Em Hx]]]].
  destruct (marker_chars m' Hm') as [Dm' [Y [y [Em' Hy]]]].
  assert (P : (v ++ m ++ ws) ++ d :: (t ++ rest')
              = (m' ++ sp) ++ c :: (t' ++ rest st)).
  { rewrite <- ?app_assoc. rewrite <- ?app_assoc in Ew. cbn [app] in *.
    rewrite <- ?app_assoc in Ew. exact Ew. }
  apply first_digit_unique in P; try assumption.
  - assert (Q : (v ++ X) ++ [x] = Y ++ [y]).
    { apply (trailing_spaces_unique _ _ ws sp); try assumption.
      rewrite <- !app_assoc. cbn [app]. rewrite Em, Em' in P.
      rewrite <- !app_assoc in P. exact P. }
    rewrite <- app_assoc, <- Em, <- Em' in Q.
    now apply (marker_not_suffix v m m').
  - rewrite !Forall_app. repeat split; try assumption.
    now apply no_digit_spaces.
  - rewrite Forall_app. split; [assumption|now apply no_digit_spaces].
Qed.

Lemma re_search_skip (p : regex) (pre s : str) :
  (forall u v, pre = u ++ v -> v <> [] -> match_here p (v ++ s) = None) ->
  re_search p (pre ++ s) = re_search p s.
Proof.
  induction pre as [|c pre IH]; intros H; [reflexivity|].
  cbn [app re_search].
  assert (H0 : match_here p (c :: pre ++ s) = None)
    by (apply (H [] (c :: pre)); easy).
  rewrite H0.
  apply IH. intros u v E Hv. apply (H (c :: u) v); [|exact Hv].
  cbn. now rewrite E.
Qed.

(** The first pattern in a text that has no digit in front of a marker,
    whitespace and a number: the capture is the number. *)
Lemma search_marker_number (pre m ws num rest' : str) :
  Forall (fun c => isdecimal c = false) pre ->
  In m [lit "rs"; lit "rs."; lit "inr"] ->
  Forall (fun c => isspace c = true) ws ->
  (exists c t, num = c :: t /\ isdecimal c = true) ->
  first numeral (MState (num ++ rest') None) (MState rest' None) ->
  re_search currency_then_number (pre ++ m ++ ws ++ num ++ rest')
  = Some (Some num).
Proof.
  intros Hpre Hm Hws Hnum Hn. rewrite re_search_skip.
  - now apply (re_search_first _ _ (MState rest' (Some num))),
      first_marker_number.
  - intros u v E Hv. apply no_match_before_marker; try assumption.
    rewrite E, Forall_app in Hpre. tauto.
Qed.

Lemma lower_app (a b : str) : lower (a ++ b) = lower a ++ lower b.
Proof. apply map_app. Qed.

(** A currency marker, optional whitespace and a number with commas and a
    fraction of two digits, after a text without digits: the commas are
    removed and the number is read with its fraction, whatever follows. *)
Theorem extract_amount_grouped_fraction (pre m ws d0 : str) (gs : list str)
        (a b : ascii) (tail : str) :
  Forall (fun c => isdecimal c = false) pre ->
  In (lower m) [lit "rs"; lit "rs."; lit "inr"] ->
  Forall (fun c => isspace c = true) ws ->
  d0 <> [] -> digits d0 -> digit_groups gs -> digits [a; b] ->
  extract_amount_from_sms
    (pre ++ m ++ ws ++ grouped d0 gs ++ point :: a :: b :: tail)
  = Ok (float_of_ratio (digits_value (ungrouped d0 gs ++ [a; b])) 2).
Proof.
  intros Hpre Hm Hws Hne Hd Hgs Hab.
  pose proof (lower_marker_number m ws d0 gs (point :: a :: b :: tail)
                                  Hws Hd Hgs) as E.
  assert (Et : lower (point :: a :: b :: tail) = point :: a :: b :: lower tail).
  { inversion Hab as [|? ? Ha H']; subst. inversion H' as [|? ? Hb _]; subst.
    cbn [lower map]. f_equal. fold (lower tail).
    pose proof (number_char_fixed a) as Fa. pose proof (number_char_fixed b) as Fb.
    rewrite Ha in Fa. rewrite Hb in Fb. rewrite !orb_true_r in Fa, Fb.
    cbn in Fa, Fb. apply Ascii.eqb_eq in Fa, Fb. now rewrite Fa, Fb. }
  rewrite Et in E. set (num := grouped d0 gs ++ [point; a; b]).
  assert (F : re_search currency_then_number
                        (lower pre ++ lower m ++ ws ++ num ++ lower tail)
              = Some (Some num)).
  { apply search_marker_number; try assumption.
    - now apply no_digit_lower.
    - destruct (grouped_head d0 gs Hne Hd) as [c [t [Ec Hc]]].
      exists c, (t ++ [point; a; b]). unfold num. rewrite Ec. now split.
    - unfold num. rewrite <- app_assoc. cbn [app].
      now apply first_numeral_fraction. }
  unfold num in F at 1. rewrite <- app_assoc in F. cbn [app] in F.
  rewrite <- E, <- lower_app in F.
  unfold extract_amount_from_sms, patterns. cbn [first_match]. rewrite F.
  cbn [amount_of_match]. fold comma. unfold num.
  rewrite replace_app, (replace_grouped d0 gs Hd Hgs).
  assert (R : replace comma [] [point; a; b] = point :: [a; b]).
  { apply replace_absent. constructor; [reflexivity|].
    eapply Forall_impl; [|exact Hab]. intros c Hc. now apply digit_facts. }
  rewrite R. apply py_float_fraction; [|now apply digits_ungrouped|exact Hab].
  unfold ungrouped. destruct d0; [now contradiction Hne|discriminate].
Qed.

(** Your a/c is credited Rs. 1,50,000.75 on 3 May *)
Lemma extract_amount_grouped_fraction_witness :
  extract_amount_from_sms (lit "Your a/c is credited Rs. 1,50,000.75 on 3 May")
  = Ok (float_of_ratio 15000075 2).
Proof.
  apply (extract_amount_grouped_fraction
           (lit "Your a/c is credited ") (lit "Rs.") (lit " ") (lit "1")
           [lit "50"; lit "000"] "7"%char "5"%char (lit " on 3 May")).
  - now repeat constructor.
  - vm_compute. right. now left.
  - now repeat constructor.
  - discriminate.
  - now repeat constructor.
  - repeat constructor; discriminate.
  - now repeat constructor.
Defined.

(** A currency marker, optional whitespace and a number with commas and
    without fraction, after a text without digits: the commas are removed
    and the number is read, when the text after it is not a continuation of
    the number. *)
Theorem extract_amount_grouped_whole (pre m ws d0 : str) (gs : list str)
        (tail : str) :
  Forall (fun c => isdecimal c = false) pre ->
  In (lower m) [lit "rs"; lit "rs."; lit "inr"] ->
  Forall (fun c => isspace c = true) ws ->
  d0 <> [] -> digits d0 -> digit_groups gs -> number_end tail = true ->
  extract_amount_from_sms (pre ++ m ++ ws ++ grouped d0 gs ++ tail)
  = Ok (float_of_Z (digits_value (ungrouped d0 gs))).
Proof.
  intros Hpre Hm Hws Hne Hd Hgs Ht.
  pose proof (lower_marker_number m ws d0 gs tail Hws Hd Hgs) as E.
  assert (F : re_search currency_then_number
                (lower pre ++ lower m ++ ws ++ grouped d0 gs ++ lower tail)
              = Some (Some (grouped d0 gs))).
  { apply search_marker_number; try assumption.
    - now apply no_digit_lower.
    - now apply grouped_head.
    - apply first_numeral_whole; try assumption.
      now rewrite number_end_lower. }
  rewrite <- E, <- lower_app in F.
  unfold extract_amount_from_sms, patterns. cbn [first_match]. rewrite F.
  cbn [amount_of_match]. fold comma.
  rewrite (replace_grouped d0 gs Hd Hgs).
  apply py_float_digits; [|now apply digits_ungrouped].
  unfold ungrouped. destruct d0; [now contradiction Hne|discriminate].
Qed.

(** Paid INR 2,500, thanks. *)
Lemma extract_amount_grouped_whole_witness :
  extract_amount_from_sms (lit "Paid INR 2,500, thanks.") = Ok (float_of_Z 2500).
Proof.
  apply (extract_amount_grouped_whole
           (lit "Paid ") (lit "INR") (lit " ") (lit "2") [lit "500"]
           (lit ", thanks.")).
  - now repeat constructor.
  - vm_compute. right. right. now left.
  - now repeat constructor.
  - discriminate.
  - now repeat constructor.
  - repeat constructor; discriminate.
  - reflexivity.
Defined.

(** ** The amount extractor: the second pattern and the keywords *)

Lemma first_numeral_general (d0 : str) (gs : list str) (frac rest' : str)
      (g : option str) :
  d0 <> [] -> digits d0 -> digit_groups gs -> fraction_ok frac ->
  (frac = [] -> number_end rest' = true) ->
  first numeral (MState ((grouped d0 gs ++ frac) ++ rest') g) (MState rest' g).
Proof.
  intros Hne Hd Hgs [->|[a [b [-> Hab]]]] Hend.
  - rewrite app_nil_r. apply first_numeral_whole; auto.
  - rewrite <- app_assoc. cbn [app]. now apply first_numeral_fraction.
Qed.

Lemma amount_of_numeral (d0 : str) (gs : list str) (frac : str) :
  d0 <> [] -> digits d0 -> digit_groups gs -> fraction_ok frac ->
  amount_of_match (Some (grouped d0 gs ++ frac))
  = Ok (numeral_value d0 gs frac).
Proof.
  intros Hne Hd Hgs Hf. cbn [amount_of_match]. fold comma.
  rewrite replace_app, (replace_grouped d0 gs Hd Hgs). unfold numeral_value.
  assert (Hu : ungrouped d0 gs <> []).
  { unfold ungrouped. destruct d0; [now contradiction Hne|discriminate]. }
  destruct Hf as [->|[a [b [-> Hab]]]].
  - cbn [replace flat_map skipn length]. rewrite !app_nil_r.
    apply py_float_digits; [exact Hu|now apply digits_ungrouped].
  - assert (R : replace comma [] [point; a; b] = point :: [a; b]).
    { apply replace_absent. constructor; [reflexivity|].
      eapply Forall_impl; [|exact Hab]. intros c Hc. now apply digit_facts. }
    rewrite R. cbn [skipn].
    apply py_float_fraction; [exact Hu|now apply digits_ungrouped|exact Hab].
Qed.

Lemma numeral_head (d0 : str) (gs : list str) (frac : str) :
  d0 <> [] -> digits d0 ->
  exists c t, grouped d0 gs ++ frac = c :: t /\ isdecimal c = true.
Proof.
  intros Hne Hd. destruct (grouped_head d0 gs Hne Hd) as [c [t [E Hc]]].
  exists c, (t ++ frac). rewrite E. now split.
Qed.

Lemma lower_numeral (d0 : str) (gs : list str) (frac : str) :
  digits d0 -> digit_groups gs -> fraction_ok frac ->
  lower (grouped d0 gs ++ frac) = grouped d0 gs ++ frac.
Proof.
  intros Hd Hgs Hf. apply lower_number_fixed. apply Forall_app. split.
  - now apply grouped_chars.
  - destruct Hf as [->|[a [b [-> Hab]]]]; [constructor|].
    constructor; [reflexivity|]. eapply Forall_impl; [|exact Hab].
    intros c Hc. rewrite Hc. now rewrite orb_true_r.
Qed.

Lemma numeral_chars (d0 : str) (gs : list str) (frac : str) :
  digits d0 -> digit_groups gs -> fraction_ok frac ->
  Forall (fun c => (isdecimal c || is_code 46 c || is_code 44 c) = true)
         (grouped d0 gs ++ frac).
Proof.
  intros Hd Hgs Hf.
  assert (D : forall s, digits s ->
                Forall (fun c => (isdecimal c || is_code 46 c || is_code 44 c)
                                 = true) s).
  { intros s Hs. eapply Forall_impl; [|exact Hs]. intros c Hc. now rewrite Hc. }
  unfold grouped. rewrite !Forall_app. repeat split.
  - now apply D.
  - induction Hgs as [|g gs [_ Hg] _ IH]; [constructor|].
    cbn [map concat]. constructor; [reflexivity|].
    apply Forall_app. split; [now apply D|exact IH].
  - destruct Hf as [->|[a [b [-> Hab]]]]; [constructor|].
    constructor; [reflexivity|]. now apply D.
Qed.

(** No pattern that begins with the number or with a marker matches at a
    character that is neither. *)
Lemma run_number_stops (s : str) (g : option str) (r : regex) :
  stops isdecimal s -> run (Seq number r) (MState s g) = [].
Proof.
  intros H. cbn [run number numeral Plus]. now rewrite step_if_stops.
Qed.

Lemma currency_head :
  forall c, (is_code 114 c || is_code 105 c
             || negb (is_code 114 c) && negb (is_code 105 c)) = true.
Proof. by_table. Qed.

Lemma run_currency_stops (s : str) (g : option str) :
  stops (fun c => is_code 114 c || is_code 105 c) s ->
  run currency (MState s g) = [].
Proof.
  intros H. destruct s as [|c s]; [reflexivity|]. cbn [stops] in H.
  apply orb_false_iff in H. destruct H as [H1 H2].
  assert (T : forall a, negb (is_code 8218 a) = true) by by_table.
  specialize (T c). apply negb_true_iff in T.
  cbn [run currency currency_symbol Lits lit list_ascii_of_string].
  unfold step_if. cbn [rest grp].
  change (is_code (ord "r") c) with (is_code 114 c).
  change (is_code (ord "i") c) with (is_code 105 c).
  now rewrite H1, H2, T.
Qed.

Lemma first_currency_some (m t : str) (g : option str) :
  In m [lit "rs"; lit "rs."; lit "inr"] ->
  exists x, first currency (MState (m ++ t) g) x.
Proof.
  intros Hm. unfold currency. destruct Hm as [<-|[<-|[<-|[]]]].
  - destruct (run (Lit 46) (MState t g)) as [|x l] eqn:E.
    + exists (MState t g). apply first_alt_l.
      eapply first_seq; [apply (first_lits (lit "rs"))|].
      now apply first_opt_skip.
    + exists x. apply first_alt_l.
      eapply first_seq; [apply (first_lits (lit "rs"))|].
      apply first_opt_take. now exists l.
  - exists (MState t g). apply first_alt_l.
    eapply first_seq; [apply (first_lits (lit "rs") (point :: t))|].
    apply first_opt_take. apply (first_lit point).
  - exists (MState t g). apply first_alt_r; [reflexivity|].
    apply first_alt_l. apply (first_lits (lit "inr")).
Qed.

Lemma space_plain :
  forall c, (negb (isspace c)
             || (negb (isdecimal c) && negb (is_code 44 c) && negb (is_code 46 c)
                 && negb (is_code 114 c) && negb (is_code 105 c))) = true.
Proof. by_table. Qed.

Lemma space_facts (c : ascii) :
  isspace c = true ->
  isdecimal c = false /\ is_code 44 c = false /\ is_code 46 c = false
  /\ is_code 114 c = false /\ is_code 105 c = false.
Proof.
  intros H. pose proof (space_plain c) as F. rewrite H in F. cbn in F.
  rewrite !andb_true_iff, !negb_true_iff in F. tauto.
Qed.

Lemma marker_head (m : str) :
  In m [lit "rs"; lit "rs."; lit "inr"] ->
  exists c t, m = c :: t /\ isspace c = false /\ isdecimal c = false
              /\ is_code 44 c = false /\ is_code 46 c = false.
Proof.
  intros [<-|[<-|[<-|[]]]]; eexists; eexists; (split; [reflexivity|]);
    now repeat split.
Qed.

(** After the number, whitespace and a marker: the number has ended. *)
Lemma number_end_marker (ws m tail : str) :
  Forall (fun c => isspace c = true) ws ->
  In m [lit "rs"; lit "rs."; lit "inr"] ->
  number_end (ws ++ m ++ tail) = true /\ stops (is_code 46) (ws ++ m ++ tail).
Proof.
  intros Hws Hm. destruct ws as [|w ws].
  - destruct (marker_head m Hm) as [c [t [-> [_ [H1 [H2 H3]]]]]].
    cbn [app number_end stops]. now rewrite H1, H2, H3.
  - inversion Hws; subst. destruct (space_facts w H1) as [A [B [C _]]].
    cbn [app number_end stops]. now rewrite A, B, C.
Qed.

(** The second pattern at the head of a number, whitespace and a marker. *)
Lemma first_number_marker (d0 : str) (gs : list str) (frac ws m tail : str) :
  d0 <> [] -> digits d0 -> digit_groups gs -> fraction_ok frac ->
  Forall (fun c => isspace c = true) ws ->
  In m [lit "rs"; lit "rs."; lit "inr"] ->
  exists x,
    first number_then_currency
          (MState ((grouped d0 gs ++ frac) ++ ws ++ m ++ tail) None) x
    /\ grp x = Some (grouped d0 gs ++ frac).
Proof.
  intros Hne Hd Hgs Hf Hws Hm.
  destruct (first_currency_some m tail (Some (grouped d0 gs ++ frac)) Hm)
    as [x Hx].
  assert (Gx : grp x = Some (grouped d0 gs ++ frac)).
  { destruct Hx as [tl Hx].
    assert (K : captured (fun w => w = grouped d0 gs ++ frac) x).
    { apply (run_keeps_captured (fun w => w = grouped d0 gs ++ frac) currency)
        with (st := MState (m ++ tail) (Some (grouped d0 gs ++ frac))).
      - cbn. tauto.
      - now eexists.
      - rewrite Hx. now left. }
    destruct K as [w [E ->]]. exact E. }
  exists x. split; [|exact Gx]. unfold number_then_currency.
  eapply first_seq.
  - unfold number. apply first_group with (g' := None).
    apply first_numeral_general; try assumption.
    intros _. now apply number_end_marker.
  - eapply first_seq; [|exact Hx].
    apply first_star_class; [exact Hws|].
    destruct (marker_head m Hm) as [c [t [-> [Hc _]]]]. exact Hc.
Qed.

Lemma marker_letter (m : str) :
  In m [lit "rs"; lit "rs."; lit "inr"] ->
  exists x t, m = x :: t /\ (is_code 114 x || is_code 105 x) = true.
Proof.
  intros [<-|[<-|[<-|[]]]]; eexists; eexists; now split.
Qed.

Lemma marker_contained (m u v s : str) :
  In m [lit "rs"; lit "rs."; lit "inr"] -> s = u ++ m ++ v ->
  contains (lit "rs") s = true \/ contains (lit "inr") s = true.
Proof.
  intros [<-|[<-|[<-|[]]]] ->; [left|left|right]; apply contains_iff.
  - now exists u, v.
  - now exists u, (point :: v).
  - now exists u, v.
Qed.

Lemma digit_not_letter (c : ascii) :
  (isdecimal c || is_code 46 c || is_code 44 c || isspace c) = true ->
  (is_code 114 c || is_code 105 c) = false.
Proof.
  assert (T : forall a, (negb (isdecimal a || is_code 46 a || is_code 44 a
                               || isspace a)
                         || negb (is_code 114 a || is_code 105 a)) = true)
    by by_table.
  intros H. specialize (T c). rewrite H in T. now apply negb_true_iff.
Qed.

(** The first pattern has no match in a text where no marker is in front
    of the number and no digit is after it. *)
Lemma no_marker_before_number (lpre num ws m ltail : str) (g : option str) :
  Forall (fun c => isdecimal c = false) lpre ->
  contains (lit "rs") lpre = false -> contains (lit "inr") lpre = false ->
  (exists d t, num = d :: t /\ isdecimal d = true) ->
  Forall (fun c => (isdecimal c || is_code 46 c || is_code 44 c) = true) num ->
  Forall (fun c => isspace c = true) ws ->
  In m [lit "rs"; lit "rs."; lit "inr"] ->
  Forall (fun c => isdecimal c = false) ltail ->
  re_search currency_then_number (lpre ++ num ++ ws ++ m ++ ltail) <> Some g.
Proof.
  intros Hpre Hrs Hinr [d [t [En Hd]]] Hnum Hws Hm Htail H.
  destruct (re_search_within _ _ g H) as [u [w [v [E Lw]]]].
  destruct (lang_currency_then_number w Lw) as [m' [sp [n [-> [Hm' [Hsp Hn]]]]]].
  destruct (numeral_text_head n Hn) as [c [t' [-> Hc]]].
  destruct (marker_letter m' Hm') as [x [m'' [Em' Hx]]].
  destruct (marker_chars m Hm) as [Dm _].
  destruct (marker_chars m' Hm') as [Dm' _].
  assert (NB : Forall (fun a => isdecimal a = false) (m ++ ltail))
    by (apply Forall_app; now split).
  assert (NN : Forall (fun a => (is_code 114 a || is_code 105 a) = false)
                      (num ++ ws)).
  { apply Forall_app. split.
    - eapply Forall_impl; [|exact Hnum]. intros a Ha. apply digit_not_letter.
      now rewrite Ha.
    - eapply Forall_impl; [|exact Hws]. intros a Ha. apply digit_not_letter.
      rewrite Ha. now rewrite !orb_true_r. }
  assert (ND : forall l r, m ++ ltail = l ++ r -> ~ In c r).
  { intros l r El Hin. rewrite Forall_forall in NB.
    rewrite (NB c) in Hc; [discriminate Hc|]. rewrite El. apply in_or_app.
    now right. }
  set (rest_w := m'' ++ sp ++ (c :: t') ++ v).
  assert (E' : lpre ++ (num ++ ws ++ m ++ ltail) = u ++ x :: rest_w).
  { rewrite E, Em'. unfold rest_w. rewrite <- !app_assoc. reflexivity. }
  assert (Cin : In c rest_w).
  { unfold rest_w. apply in_or_app. right. apply in_or_app. right.
    apply in_or_app. left. now left. }
  apply app_eq_app in E'. destruct E' as [l [[E1 E2]|[E1 E2]]].
  - destruct l as [|y l].
    + cbn [app] in E2. rewrite En in E2. cbn [app] in E2.
      injection E2 as Ex _. rewrite Ex in Hx.
      rewrite (digit_not_letter d) in Hx; [discriminate Hx|].
      now rewrite Hd.
    + cbn [app] in E2. injection E2 as Ey E3.
      assert (P : (x :: l) ++ d :: (t ++ ws ++ m ++ ltail)
                  = (m' ++ sp) ++ c :: (t' ++ v)).
      { rewrite Em'. cbn [app]. f_equal. transitivity rest_w.
        - rewrite E3, En. reflexivity.
        - unfold rest_w. now rewrite <- app_assoc. }
      apply first_digit_unique in P; try assumption.
      * subst y. rewrite P in E1.
        assert (E5 : lpre = u ++ m' ++ sp) by exact E1.
        destruct (marker_contained m' u sp lpre Hm' E5) as [C|C]; congruence.
      * subst y. rewrite E1, Forall_app in Hpre. tauto.
      * apply Forall_app. split; [assumption|now apply no_digit_spaces].
  - assert (E2' : (num ++ ws) ++ (m ++ ltail) = l ++ x :: rest_w)
      by (rewrite <- E2, <- !app_assoc; reflexivity).
    apply app_eq_app in E2'. destruct E2' as [l2 [[E3 E4]|[E3 E4]]].
    + destruct l2 as [|y l2].
      * cbn [app] in E4. apply (ND [] (x :: rest_w)); [now symmetry|].
        now right.
      * cbn [app] in E4. injection E4 as Ey _. subst y.
        rewrite E3, Forall_app in NN. destruct NN as [_ NN].
        inversion NN; subst. congruence.
    + apply (ND l2 (x :: rest_w)); [exact E4|]. now right.
Qed.

(** A number, optional whitespace and a currency marker, with no marker in
    the text in front and no digit in the text behind: the second pattern
    reads the number. *)
Theorem extract_amount_number_then_marker (pre d0 : str) (gs : list str)
        (frac ws m tail : str) :
  Forall (fun c => isdecimal c = false) pre ->
  contains (lit "rs") (lower pre) = false ->
  contains (lit "inr") (lower pre) = false ->
  d0 <> [] -> digits d0 -> digit_groups gs -> fraction_ok frac ->
  Forall (fun c => isspace c = true) ws ->
  In (lower m) [lit "rs"; lit "rs."; lit "inr"] ->
  Forall (fun c => isdecimal c = false) tail ->
  extract_amount_from_sms (pre ++ (grouped d0 gs ++ frac) ++ ws ++ m ++ tail)
  = Ok (numeral_value d0 gs frac).
Proof.
  intros Hpre Hrs Hinr Hne Hd Hgs Hf Hws Hm Htail.
  set (num := grouped d0 gs ++ frac).
  assert (E : lower (pre ++ num ++ ws ++ m ++ tail)
              = lower pre ++ num ++ ws ++ lower m ++ lower tail).
  { rewrite !lower_app. unfold num. rewrite (lower_numeral d0 gs frac Hd Hgs Hf).
    rewrite (lower_number_fixed ws); [reflexivity|].
    eapply Forall_impl; [|exact Hws]. intros c Hc. now rewrite Hc. }
  assert (P1 : re_search currency_then_number
                         (lower (pre ++ num ++ ws ++ m ++ tail)) = None).
  { apply not_some_none. intros g. rewrite E.
    apply no_marker_before_number; try assumption.
    - now apply no_digit_lower.
    - now apply numeral_head.
    - now apply numeral_chars.
    - now apply no_digit_lower. }
  destruct (first_number_marker d0 gs frac ws (lower m) (lower tail)
                                Hne Hd Hgs Hf Hws Hm) as [x [Fx Gx]].
  assert (P2 : re_search number_then_currency
                         (lower (pre ++ num ++ ws ++ m ++ tail))
               = Some (Some num)).
  { rewrite E, re_search_skip.
    - unfold num. rewrite <- Gx. apply re_search_first.
      rewrite <- app_assoc in Fx. rewrite <- app_assoc. exact Fx.
    - intros u v Ev Hv. unfold match_here, number_then_currency.
      rewrite run_number_stops; [reflexivity|].
      destruct v as [|c v]; [now contradiction Hv|]. cbn [app stops].
      apply no_digit_lower in Hpre. rewrite Ev, Forall_app in Hpre.
      destruct Hpre as [_ Hpre]. now inversion Hpre. }
  unfold extract_amount_from_sms, patterns. cbn [first_match].
  rewrite P1, P2. now apply amount_of_numeral.
Qed.

(** Paid 1,250.50 INR at the shop *)
Lemma extract_amount_number_then_marker_witness :
  extract_amount_from_sms (lit "Paid 1,250.50 INR at the shop")
  = Ok (float_of_ratio 125050 2).
Proof.
  apply (extract_amount_number_then_marker
           (lit "Paid ") (lit "1") [lit "250"] (lit ".50") (lit " ")
           (lit "INR") (lit " at the shop")).
  - now repeat constructor.
  - reflexivity.
  - reflexivity.
  - discriminate.
  - now repeat constructor.
  - repeat constructor; discriminate.
  - right. exists "5"%char, "0"%char. split; [reflexivity|now repeat constructor].
  - now repeat constructor.
  - vm_compute. right. right. now left.
  - now repeat constructor.
Defined.

(** The words of a keyword pattern, part by part. *)
Lemma lang_keyword_parts (kw : string) (w : str) :
  lang (keyword_pattern kw) w ->
  exists sp mo sp2 n,
    w = lit kw ++ sp ++ mo ++ sp2 ++ n
    /\ Forall (fun c => isspace c = true) sp
    /\ (mo = [] \/ In mo [lit "rs"; lit "rs."; lit "inr"])
    /\ Forall (fun c => isspace c = true) sp2
    /\ numeral_text n.
Proof.
  intros [k [v [-> [Hk [sp [v2 [-> [Hsp [mo [v3 [-> [Hmo [sp2 [n [-> [Hsp2 Hn]]]]]]]]]]]]]]]].
  apply lang_lits in Hk. subst k. exists sp, mo, sp2, n. repeat split.
  - now apply lang_spaces.
  - destruct Hmo as [->|Hmo]; [now left|right; now apply lang_currency].
  - now apply lang_spaces.
  - now apply lang_numeral.
Qed.

Lemma keyword_chars (kw : string) :
  In kw keywords ->
  Forall (fun c => isdecimal c = false) (lit kw)
  /\ exists X x, lit kw = X ++ [x] /\ isspace x = false.
Proof.
  intros [<-|[<-|[<-|[]]]]; (split; [now repeat constructor|]).
  - now exists (lit "amoun"), "t"%char.
  - now exists (lit "debite"), "d"%char.
  - now exists (lit "spen"), "t"%char.
Qed.

(** A keyword pattern has no match that begins in a text without digits in
    front of the keyword, whitespace and a number, when the text has no
    currency abbreviation. *)
Lemma no_match_before_keyword (kw : string) (u v ws num rest' : str) :
  In kw keywords -> v <> [] ->
  Forall (fun c => isdecimal c = false) v ->
  Forall (fun c => isspace c = true) ws ->
  (exists c t, num = c :: t /\ isdecimal c = true) ->
  contains (lit "rs") (u ++ v ++ lit kw ++ ws ++ num ++ rest') = false ->
  contains (lit "inr") (u ++ v ++ lit kw ++ ws ++ num ++ rest') = false ->
  match_here (keyword_pattern kw) (v ++ lit kw ++ ws ++ num ++ rest') = None.
Proof.
  intros Hkw Hv Hnd Hws [d [t [-> Hd]]] Hrs Hinr. unfold match_here.
  destruct (run (keyword_pattern kw)
                (MState (v ++ lit kw ++ ws ++ (d :: t) ++ rest') None))
    as [|st l] eqn:E; [reflexivity|exfalso].
  destruct (run_consumes (keyword_pattern kw)
              (MState (v ++ lit kw ++ ws ++ (d :: t) ++ rest') None) st)
    as [w [Ew Lw]].
  { rewrite E. now left. }
  cbn [rest] in Ew.
  destruct (lang_keyword_parts kw w Lw)
    as [sp [mo [sp2 [n [-> [Hsp [Hmo [Hsp2 Hn]]]]]]]].
  destruct (numeral_text_head n Hn) as [c [t' [-> Hc]]].
  destruct (keyword_chars kw Hkw) as [Dk [X [x [Ek Hx]]]].
  destruct Hmo as [->|Hmo].
  - assert (P : (v ++ lit kw ++ ws) ++ d :: (t ++ rest')
                = (lit kw ++ sp ++ sp2) ++ c :: (t' ++ rest st)).
    { rewrite <- ?app_assoc. rewrite <- ?app_assoc in Ew. cbn [app] in *.
      rewrite <- ?app_assoc in Ew. exact Ew. }
    apply first_digit_unique in P; try assumption.
    + assert (Q : (v ++ X) ++ [x] = X ++ [x]).
      { apply (trailing_spaces_unique _ _ ws (sp ++ sp2)); try assumption.
        - apply Forall_app. now split.
        - rewrite <- !app_assoc. cbn [app]. rewrite Ek in P.
          rewrite <- !app_assoc in P. exact P. }
      apply (f_equal (@length ascii)) in Q. rewrite !length_app in Q.
      destruct v; [now apply Hv|]. cbn [length] in Q. lia.
    + rewrite !Forall_app. repeat split; try assumption.
      now apply no_digit_spaces.
    + rewrite !Forall_app. repeat split; try assumption;
        now apply no_digit_spaces.
  - destruct (marker_contained mo (u ++ lit kw ++ sp) (sp2 ++ (c :: t') ++ rest st)
                (u ++ v ++ lit kw ++ ws ++ (d :: t) ++ rest') Hmo) as [C|C];
      try congruence.
    rewrite Ew. rewrite <- !app_assoc. reflexivity.
Qed.

(** A keyword pattern at the head of the keyword, whitespace and a
    number. *)
Lemma first_keyword_number (kw : string) (ws num rest' : str) :
  Forall (fun c => isspace c = true) ws ->
  (exists c t, num = c :: t /\ isdecimal c = true) ->
  first numeral (MState (num ++ rest') None) (MState rest' None) ->
  first (keyword_pattern kw) (MState (lit kw ++ ws ++ num ++ rest') None)
        (MState rest' (Some num)).
Proof.
  intros Hws [c [t [E Hc]]] Hn. unfold keyword_pattern.
  assert (S1 : stops isspace (num ++ rest'))
    by (subst num; cbn [app stops]; now apply digit_facts).
  eapply first_seq; [apply first_lits|].
  eapply first_seq; [apply first_star_class; [exact Hws|exact S1]|].
  eapply first_seq.
  - apply first_opt_skip. apply run_currency_stops. subst num.
    cbn [app stops]. apply digit_not_letter. now rewrite Hc.
  - eapply first_seq.
    + apply (first_star_class Space [] (num ++ rest') None); [constructor|].
      exact S1.
    + now apply first_group with (g' := None).
Qed.

(** A keyword, optional whitespace and a number, in a text that has no
    digit in front of the keyword, no currency abbreviation and none of the
    keywords of the patterns tried before: the number is read. *)
Theorem extract_amount_keyword (i : nat) (kw : string) (pre k ws d0 : str)
        (gs : list str) (frac tail : str) :
  nth_error keywords i = Some kw -> lower k = lit kw ->
  Forall (fun c => isdecimal c = false) pre ->
  Forall (fun c => isspace c = true) ws ->
  d0 <> [] -> digits d0 -> digit_groups gs -> fraction_ok frac ->
  (frac = [] -> number_end tail = true) ->
  (forall cue, In cue ([lit "rs"; lit "inr"] ++ map lit (firstn i keywords)) ->
               contains cue (lower (pre ++ k ++ ws ++ (grouped d0 gs ++ frac)
                                        ++ tail)) = false) ->
  extract_amount_from_sms (pre ++ k ++ ws ++ (grouped d0 gs ++ frac) ++ tail)
  = Ok (numeral_value d0 gs frac).
Proof.
  intros Hi Hk Hpre Hws Hne Hd Hgs Hf Hend Hcue.
  set (num := grouped d0 gs ++ frac) in *.
  set (text := pre ++ k ++ ws ++ num ++ tail) in *.
  assert (E : lower text = lower pre ++ lit kw ++ ws ++ num ++ lower tail).
  { unfold text. rewrite !lower_app, Hk. unfold num.
    rewrite (lower_numeral d0 gs frac Hd Hgs Hf).
    rewrite (lower_number_fixed ws); [reflexivity|].
    eapply Forall_impl; [|exact Hws]. intros c Hc. now rewrite Hc. }
  assert (Hin : In kw keywords) by (eapply nth_error_In; eassumption).
  assert (C1 : re_search currency_then_number (lower text) = None).
  { apply not_some_none. intros g G.
    destruct (currency_pattern_cue _ _ g (or_introl eq_refl) G) as [C|C];
      rewrite Hcue in C; try discriminate C; cbn; tauto. }
  assert (C2 : re_search number_then_currency (lower text) = None).
  { apply not_some_none. intros g G.
    destruct (currency_pattern_cue _ _ g (or_intror (or_introl eq_refl)) G)
      as [C|C]; rewrite Hcue in C; try discriminate C; cbn; tauto. }
  assert (K : re_search (keyword_pattern kw) (lower text) = Some (Some num)).
  { rewrite E, re_search_skip.
    - apply (re_search_first _ _ (MState (lower tail) (Some num))).
      apply first_keyword_number; try assumption.
      + now apply numeral_head.
      + apply first_numeral_general; try assumption.
        intros Ef. rewrite number_end_lower. now apply Hend.
    - intros u v Ev Hv. apply (no_match_before_keyword kw u); try assumption.
      + apply no_digit_lower in Hpre. rewrite Ev, Forall_app in Hpre. tauto.
      + now apply numeral_head.
      + rewrite app_assoc, <- Ev, <- E. apply Hcue. cbn. tauto.
      + rewrite app_assoc, <- Ev, <- E. apply Hcue. cbn. tauto. }
  assert (N : forall q, In q (firstn i keywords) ->
                        re_search (keyword_pattern q) (lower text) = None).
  { intros q Hq. apply not_some_none. intros g G.
    apply keyword_pattern_cue in G. rewrite Hcue in G; [discriminate G|].
    right. right. now apply in_map. }
  unfold extract_amount_from_sms, patterns. cbn [first_match].
  rewrite C1, C2.
  destruct i as [|[|[|i]]]; cbn in Hi;
    [| | |destruct i; discriminate Hi];
    injection Hi as <-; cbn [firstn keywords] in N.
  - rewrite K. now apply amount_of_numeral.
  - rewrite (N "amount"%string) by (cbn; tauto).
    rewrite K. now apply amount_of_numeral.
  - rewrite (N "amount"%string), (N "debited"%string) by (cbn; tauto).
    rewrite K. now apply amount_of_numeral.
Qed.

(** Your card was debited 2,000.50 at the store *)
Lemma extract_amount_keyword_witness :
  extract_amount_from_sms (lit "Your card was Debited 2,000.50 at the store")
  = Ok (float_of_ratio 200050 2).
Proof.
  apply (extract_amount_keyword
           1 "debited" (lit "Your card was ") (lit "Debited") (lit " ")
           (lit "2") [lit "000"] (lit ".50") (lit " at the store")).
  - reflexivity.
  - reflexivity.
  - now repeat constructor.
  - now repeat constructor.
  - discriminate.
  - now repeat constructor.
  - repeat constructor; discriminate.
  - right. exists "5"%char, "0"%char. split; [reflexivity|now repeat constructor].
  - discriminate.
  - intros cue Hc. cbn in Hc.
    repeat (destruct Hc as [<-|Hc]; [vm_compute; reflexivity|]). destruct Hc.
Defined.

(** ** The merchant extractor: what is reported *)

Lemma first_merchant_cases (ms : list str) (text : str) :
  (first_merchant ms text = unknown_merchant
   /\ forall q, In q ms -> contains q (lower text) = false)
  \/ exists m, In m ms /\ contains m (lower text) = true
               /\ first_merchant ms text = title m.
Proof.
  induction ms as [|m ms IH]; cbn [first_merchant].
  - left. split; [reflexivity|]. intros q [].
  - destruct (contains m (lower text)) eqn:E.
    + right. exists m. repeat split; [now left|exact E].
    + destruct IH as [[IH1 IH2]|[m' [H1 [H2 H3]]]].
      * left. split; [exact IH1|]. intros q [<-|Hq]; [exact E|now apply IH2].
      * right. exists m'. repeat split; [now right|exact H2|exact H3].
Qed.

Lemma title_merchants :
  Forall (fun m => lower (title m) = m /\ title m <> unknown_merchant) merchants.
Proof. repeat constructor; discriminate. Qed.

Lemma title_merchant_inj (m m' : str) :
  In m merchants -> In m' merchants -> title m = title m' -> m = m'.
Proof.
  intros Hm Hm' E. pose proof title_merchants as T.
  rewrite Forall_forall in T.
  destruct (T m Hm) as [<- _]. destruct (T m' Hm') as [<- _]. now rewrite E.
Qed.

Lemma first_merchant_sound (text : str) :
  (forall m, In m merchants -> extract_merchant_from_sms text = title m ->
             exists u v, lower text = u ++ m ++ v)
  /\ (extract_merchant_from_sms text = unknown_merchant
      <-> forall q, In q merchants -> ~ exists u v, lower text = u ++ q ++ v).
Proof.
  unfold extract_merchant_from_sms. pose proof title_merchants as T.
  rewrite Forall_forall in T.
  destruct (first_merchant_cases merchants text)
    as [[H1 H2]|[m' [Hm' [Hc H3]]]].
  - split.
    + intros m Hm E. rewrite H1 in E. destruct (T m Hm) as [_ N].
      now contradiction N.
    + split; [|trivial]. intros _ q Hq Hex. apply contains_iff in Hex.
      rewrite (H2 q Hq) in Hex. discriminate Hex.
  - split.
    + intros m Hm E. rewrite H3 in E.
      apply (title_merchant_inj m' m Hm' Hm) in E. subst m'.
      now apply contains_iff.
    + split.
      * intros E. rewrite H3 in E. destruct (T m' Hm') as [_ N].
        now contradiction N.
      * intros H. exfalso. apply (H m' Hm'). now apply contains_iff.
Qed.

(** A merchant is reported only when its name occurs in the lower-cased
    text, and the sentinel exactly when no name of the vocabulary does. *)
Theorem extract_merchant_sound (text : str) :
  (forall m, In m merchants -> extract_merchant_from_sms text = title m ->
             exists u v, lower text = u ++ m ++ v)
  /\ (extract_merchant_from_sms text = unknown_merchant
      <-> forall q, In q merchants -> ~ exists u v, lower text = u ++ q ++ v).
Proof. exact (first_merchant_sound text). Qed.

(** The name ola inside the word Cola. *)
Lemma extract_merchant_sound_witness :
  exists u v, lower (lit "2 bottles of Cola") = u ++ lit "ola" ++ v.
Proof.
  apply (proj1 (extract_merchant_sound (lit "2 bottles of Cola")) (lit "ola")).
  - vm_compute. tauto.
  - vm_compute. reflexivity.
Defined.

(** ** A text without word characters *)

Lemma merchant_heads :
  Forall (fun m => exists c t, m = c :: t /\ isword c = true) merchants.
Proof. repeat constructor; eexists; eexists; now split. Qed.

Lemma word_is_decimal :
  forall c, (negb (isdecimal c) || isword c) = true.
Proof. by_table. Qed.

(** A text that has no word character (no letter, digit or underscore) is
    normalised to the empty text, has the amount 0.0 and no merchant. *)
Theorem no_word_text (text : str) :
  Forall (fun c => isword c = false) text ->
  preprocess_text text = []
  /\ extract_amount_from_sms text = Ok zero
  /\ extract_merchant_from_sms text = unknown_merchant.
Proof.
  intros H. repeat split.
  - now apply preprocess_text_nil_iff.
  - apply no_digit_no_amount. eapply Forall_impl; [|exact H].
    intros c Hc. pose proof (word_is_decimal c) as F. rewrite Hc in F.
    rewrite orb_false_r in F. now apply negb_true_iff.
  - apply (proj2 (first_merchant_sound text)). intros q Hq [u [v E]].
    pose proof merchant_heads as M. rewrite Forall_forall in M.
    destruct (M q Hq) as [c [t [-> Hc]]].
    assert (L : Forall (fun c => isword c = false) (lower text)).
    { unfold lower. apply Forall_map. eapply Forall_impl; [|exact H].
      intros a Ha. pose proof (isword_lower a) as F. rewrite Ha in F.
      now destruct (isword (lower_char a)). }
    rewrite E, !Forall_app in L. destruct L as [_ [L _]].
    inversion L; subst. congruence.
Qed.

(** Punctuation and blanks only. *)
Lemma no_word_text_witness :
  preprocess_text (lit " ... !? -- ") = []
  /\ extract_amount_from_sms (lit " ... !? -- ") = Ok zero
  /\ extract_merchant_from_sms (lit " ... !? -- ") = unknown_merchant.
Proof.
  apply no_word_text. now repeat constructor.
Defined.

(** ** The confidence *)

Lemma Pos_compare_cont_Eq (p q : positive) :
  Pos.compare_cont Eq p q = Pos.compare p q.
Proof. reflexivity. Qed.

Ltac order_facts :=
  repeat match goal with
         | H : context [Pos.compare_cont Eq ?p ?q] |- _ =>
             rewrite (Pos_compare_cont_Eq p q) in H
         | H : context [(?a ?= ?b)%Z] |- _ =>
             destruct (Z.compare_spec a b); try discriminate H
         | H : context [(?a ?= ?b)%positive] |- _ =>
             destruct (Pos.compare_spec a b); try discriminate H
         | |- context [Pos.compare_cont Eq ?p ?q] =>
             rewrite (Pos_compare_cont_Eq p q)
         | |- context [(?a ?= ?b)%Z] => destruct (Z.compare_spec a b)
         | |- context [(?a ?= ?b)%positive] => destruct (Pos.compare_spec a b)
         end.

(** [<] on floats is transitive. *)
Lemma SFltb_trans (x y z : float) :
  SFltb x y = true -> SFltb y z = true -> SFltb x z = true.
Proof.
  unfold SFltb, SFcompare.
  destruct x as [[|]|[|]| |[|] mx ex], y as [[|]|[|]| |[|] my ey],
    z as [[|]|[|]| |[|] mz ez];
    intros H1 H2; try discriminate H1; try discriminate H2; try reflexivity;
    cbn in *; order_facts; subst; try reflexivity; try lia;
    try discriminate.
Qed.

Lemma SFltb_irrefl (x : float) : SFltb x x = false.
Proof.
  unfold SFltb, SFcompare. destruct x as [[|]|[|]| |[|] m e]; try reflexivity;
    rewrite Z.compare_refl, Pos_compare_cont_Eq, Pos.compare_refl; reflexivity.
Qed.

Lemma max_fold (xs : list float) (best : float) (seen : list float) :
  In best seen -> (forall x, In x seen -> SFltb best x = false) ->
  let m := fold_left (fun b y => if SFltb b y then y else b) xs best in
  In m (seen ++ xs) /\ forall x, In x (seen ++ xs) -> SFltb m x = false.
Proof.
  revert best seen. induction xs as [|y xs IH]; intros best seen Hin Hmax.
  - cbn. rewrite app_nil_r. now split.
  - cbn [fold_left]. cbn zeta.
    replace (seen ++ y :: xs) with ((seen ++ [y]) ++ xs)
      by (now rewrite <- app_assoc).
    apply IH.
    + destruct (SFltb best y); apply in_or_app; [right; now left|now left].
    + intros x Hx. apply in_app_or in Hx.
      destruct (SFltb best y) eqn:E.
      * destruct Hx as [Hx|[<-|[]]]; [|apply SFltb_irrefl].
        destruct (SFltb y x) eqn:E2; [|reflexivity].
        rewrite <- (Hmax x Hx). symmetry. now apply (SFltb_trans best y x).
      * destruct Hx as [Hx|[<-|[]]]; [now apply Hmax|exact E].
Qed.

(** [max] returns an item of the list that no item is greater than, and
    raises on the empty list only. *)
Lemma py_max_greatest (xs : list float) :
  match py_max xs with
  | Ok m => In m xs /\ forall x, In x xs -> SFltb m x = false
  | Raise _ => xs = []
  end.
Proof.
  destruct xs as [|x xs]; [reflexivity|]. cbn [py_max].
  apply (max_fold xs x [x]); [now left|].
  intros y [<-|[]]. apply SFltb_irrefl.
Qed.

(** ** The endpoints *)

Section EndpointPaths.

Variables Vec Label : Type.
Variable round2 : float -> float.
Variable model : Model Vec Label.
Variable vectorizer : Vectorizer Vec.

(** The paths of a call with a loaded classifier, up to the text. *)
Ltac open_call :=
  unfold categorize_sms, try_except, categorize_try, categorize_handler,
    text_of, bind, lift, emit, ret.

(** Every answer has one of three shapes: a result with status 200, the
    answer to a body without sms_text with status 400, or an error with
    status 500. *)
Lemma categorize_sms_shapes (m : option (Model Vec Label))
      (v : option (Vectorizer Vec)) (now : str) (req : request) :
  let r := fst (categorize_sms round2 m v now req) in
  (status r = 200 /\ exists c p a mer t pa, body r = ResultBody c p a mer t pa)
  \/ r = missing_sms_text
  \/ (status r = 500 /\ exists err, body r = ErrorBody err None).
Proof.
  cbn zeta. open_call.
  destruct m as [m|], v as [v|];
    try (right; right; split; [reflexivity|now eexists]).
  destruct (get_json req) as [data|e];
    [|right; right; split; [reflexivity|now eexists]].
  destruct (truthy data); [|right; now left].
  destruct (has_key (lit "sms_text") data) as [[|]|e]; cbn [negb];
    [|right; now left|right; right; split; [reflexivity|now eexists]].
  destruct (getitem (lit "sms_text") data) as [[| | |text| |]|e];
    try (right; right; split; [reflexivity|now eexists]).
  cbn [app].
  destruct (transform v [preprocess_text text]) as [x|e];
    [|right; right; split; [reflexivity|now eexists]].
  destruct (predict m x) as [labels|e];
    [|right; right; split; [reflexivity|now eexists]].
  destruct (first_item labels) as [label|e];
    [|right; right; split; [reflexivity|now eexists]].
  destruct (predict_proba m x) as [rows|e];
    [|right; right; split; [reflexivity|now eexists]].
  destruct (first_item rows) as [row|e];
    [|right; right; split; [reflexivity|now eexists]].
  destruct (py_max row) as [p|e];
    [|right; right; split; [reflexivity|now eexists]].
  destruct (extract_amount_from_sms text) as [a|e];
    [|right; right; split; [reflexivity|now eexists]].
  left. split; [reflexivity|]. cbn. now repeat eexists.
Qed.

Lemma categorize_sms_error_paths (now : str) (req : request) :
  let out := categorize_sms round2 (Some model) (Some vectorizer) now req in
  (status (fst out) = 500 /\
   exists e tr, body (fst out) = ErrorBody (OfException e) None
                /\ snd out = tr ++ [Printed (ErrorLine e)])
  \/ (status (fst out) <> 500
      /\ forall e, ~ In (Printed (ErrorLine e)) (snd out)).
Proof.
  cbn zeta. open_call.
  destruct (get_json req) as [data|e];
    [|left; split; [reflexivity|exists e, []; now split]].
  destruct (truthy data);
    [|right; split; [discriminate|intros e []]].
  destruct (has_key (lit "sms_text") data) as [[|]|e]; cbn [negb];
    [|right; split; [discriminate|intros e []]
     |left; split; [reflexivity|exists e, []; now split]].
  destruct (getitem (lit "sms_text") data) as [[| | |text| |]|e];
    try (left; split; [reflexivity|eexists; exists []; now split]).
  2: { left. split; [reflexivity|]. eexists. eexists. split; reflexivity. }
  - cbn [app].
    destruct (transform vectorizer [preprocess_text text]) as [x|e];
      [|left; split; [reflexivity|eexists; eexists; split; reflexivity]].
    destruct (predict model x) as [labels|e];
      [|left; split; [reflexivity|eexists; eexists; split; reflexivity]].
    destruct (first_item labels) as [label|e];
      [|left; split; [reflexivity|eexists; eexists; split; reflexivity]].
    destruct (predict_proba model x) as [rows|e];
      [|left; split; [reflexivity|eexists; eexists; split; reflexivity]].
    destruct (first_item rows) as [row|e];
      [|left; split; [reflexivity|eexists; eexists; split; reflexivity]].
    destruct (py_max row) as [p|e];
      [|left; split; [reflexivity|eexists; eexists; split; reflexivity]].
    destruct (extract_amount_from_sms text) as [a|e];
      [|left; split; [reflexivity|eexists; eexists; split; reflexivity]].
    right. split; [discriminate|]. cbn. intros e H.
    repeat (destruct H as [H|H]; [discriminate H|]). exact H.
Qed.

(** With a loaded classifier, an answer with status 500 carries the text
    of an exception, which is the last thing printed; an answer with
    another status comes without a printed error. *)
Lemma categorize_sms_errors (now : str) (req : request) :
  let out := categorize_sms round2 (Some model) (Some vectorizer) now req in
  (status (fst out) = 500 /\
   exists e tr, body (fst out) = ErrorBody (OfException e) None
                /\ snd out = tr ++ [Printed (ErrorLine e)])
  \/ (status (fst out) <> 500
      /\ forall e, ~ In (Printed (ErrorLine e)) (snd out)).
Proof. exact (categorize_sms_error_paths now req). Qed.


(** Every field of a result: the original text is the sms_text of the
    body, the category is the first prediction for the vector of the
    normalised text, the confidence is the rounded greatest probability of
    the first row for that vector, the amount and the merchant are those of
    the raw text, and processed_at is the reading of the clock. *)
Lemma categorize_sms_result (now : str) (req : request) (c : Label)
      (p a : float) (mer t pa : str) :
  body (fst (categorize_sms round2 (Some model) (Some vectorizer) now req))
  = ResultBody c p a mer t pa ->
  (exists kv, get_json req = Ok (JDict kv)
              /\ lookup (lit "sms_text") kv = Some (JStr t))
  /\ (exists v labels row rows mx,
         transform vectorizer [preprocess_text t] = Ok v
         /\ predict model v = Ok (c :: labels)
         /\ predict_proba model v = Ok (row :: rows)
         /\ In mx row /\ (forall y, In y row -> SFltb mx y = false)
         /\ p = round2 mx)
  /\ extract_amount_from_sms t = Ok a
  /\ mer = extract_merchant_from_sms t
  /\ pa = now.
Proof.
  open_call.
  destruct (get_json req) as [data|e] eqn:Ej; [|intros [=]].
  destruct (truthy data); [|intros [=]].
  destruct (has_key (lit "sms_text") data) as [[|]|e]; cbn [negb];
    try (intros [=]; fail).
  destruct (getitem (lit "sms_text") data) as [[| | |text| |]|e] eqn:Eg;
    try (intros [=]; fail).
  destruct data as [| | | | |kv]; try discriminate Eg. cbn [getitem] in Eg.
  destruct (lookup (lit "sms_text") kv) as [j|] eqn:El; [|discriminate Eg].
  injection Eg as ->. cbn [app].
  destruct (transform vectorizer [preprocess_text text]) as [v|e] eqn:Et;
    [|intros [=]].
  destruct (predict model v) as [labels|e] eqn:Ep; [|intros [=]].
  destruct labels as [|label labels]; cbn [first_item]; [intros [=]|].
  destruct (predict_proba model v) as [rows|e] eqn:Epp; [|intros [=]].
  destruct rows as [|row rows]; cbn [first_item]; [intros [=]|].
  pose proof (py_max_greatest row) as Hmax.
  destruct (py_max row) as [mx|e]; [|intros [=]].
  destruct (extract_amount_from_sms text) as [a'|e] eqn:Ea; [|intros [=]].
  cbn. intros [= <- <- <- <- <- <-]. destruct Hmax as [H1 H2].
  repeat split.
  - now exists kv.
  - exists v, labels, row, rows, mx. rewrite Et. now repeat split.
  - exact Ea.
Qed.


Lemma str_eqb_eq (a b : str) : str_eqb a b = true <-> a = b.
Proof.
  unfold str_eqb. rewrite andb_true_iff, Nat.eqb_eq, starts_with_iff. split.
  - intros [L [v E]]. subst b. rewrite length_app in L.
    destruct v; [now rewrite app_nil_r|cbn in L; lia].
  - intros ->. split; [reflexivity|]. exists []. now rewrite app_nil_r.
Qed.

(** [lookup] finds a field exactly when the object has one of that name. *)
Lemma lookup_none_iff (key : str) (kv : list (str * json)) :
  lookup key kv = None <-> forall j, ~ In (key, j) kv.
Proof.
  induction kv as [|[k j] kv IH]; cbn [lookup].
  - split; [intros _ j []|reflexivity].
  - destruct (str_eqb key k) eqn:E.
    + apply str_eqb_eq in E. subst k. split; [discriminate|].
      intros H. exfalso. apply (H j). now left.
    + rewrite IH. split.
      * intros H j' [H'|H']; [|now apply (H j')].
        injection H' as Ek _. rewrite Ek in E.
        rewrite (proj2 (str_eqb_eq key key) eq_refl) in E. discriminate E.
      * intros H j' H'. apply (H j'). now right.
Qed.

(** With a loaded classifier, the answer is Please provide sms_text in
    JSON, with status 400, exactly when the body is parsed and is empty,
    null, false or zero or does not have sms_text; for a body that is an
    object, exactly when it has no field of that name. *)
Lemma categorize_sms_missing_iff (now : str) (req : request) :
  (fst (categorize_sms round2 (Some model) (Some vectorizer) now req)
   = missing_sms_text
   <-> exists data, get_json req = Ok data
                    /\ (truthy data = false
                        \/ has_key (lit "sms_text") data = Ok false))
  /\ (forall kv, get_json req = Ok (JDict kv) ->
        (fst (categorize_sms round2 (Some model) (Some vectorizer) now req)
         = missing_sms_text
         <-> forall j, ~ In (lit "sms_text", j) kv)).
Proof.
  assert (A : fst (categorize_sms round2 (Some model) (Some vectorizer) now req)
              = missing_sms_text
              <-> exists data, get_json req = Ok data
                               /\ (truthy data = false
                                   \/ has_key (lit "sms_text") data = Ok false)).
  { split.
    - open_call.
      destruct (get_json req) as [data|e] eqn:Ej; [|intros [=]].
      destruct (truthy data) eqn:Et;
        [|intros _; exists data; split; [reflexivity|now left]].
      destruct (has_key (lit "sms_text") data) as [[|]|e] eqn:Eh; cbn [negb];
        [|intros _; exists data; split; [reflexivity|now right]|intros [=]].
      destruct (getitem (lit "sms_text") data) as [[| | |text| |]|e];
        try (intros [=]; fail).
      cbn [app].
      destruct (transform vectorizer [preprocess_text text]) as [v|e];
        [|intros [=]].
      destruct (predict model v) as [labels|e]; [|intros [=]].
      destruct (first_item labels) as [label|e]; [|intros [=]].
      destruct (predict_proba model v) as [rows|e]; [|intros [=]].
      destruct (first_item rows) as [row|e]; [|intros [=]].
      destruct (py_max row) as [p|e]; [|intros [=]].
      destruct (extract_amount_from_sms text) as [a|e]; intros [=].
    - intros [data [Ej H]].
      now rewrite (categorize_sms_missing Vec Label round2 model vectorizer
                                          now req data Ej H). }
  split; [exact A|]. intros kv Ej. rewrite A, <- lookup_none_iff. split.
  - intros [data [Ej' H]]. rewrite Ej in Ej'. injection Ej' as <-.
    destruct H as [H|H].
    + destruct kv; [reflexivity|discriminate H].
    + cbn [has_key] in H. now destruct (lookup (lit "sms_text") kv).
  - intros H. exists (JDict kv). split; [exact Ej|]. right.
    cbn [has_key]. now rewrite H.
Qed.

(** A body whose sms_text is not a string (a number, null, a list, an
    object) is answered with status 500, not 400, and the classifier is not
    called. *)
Lemma categorize_sms_not_text (now : str) (req : request)
      (kv : list (str * json)) (j : json) :
  get_json req = Ok (JDict kv) ->
  lookup (lit "sms_text") kv = Some j ->
  (forall t, j <> JStr t) ->
  status (fst (categorize_sms round2 (Some model) (Some vectorizer) now req))
  = 500
  /\ classifier_calls
       (snd (categorize_sms round2 (Some model) (Some vectorizer) now req))
     = [].
Proof.
  intros Ej El Hj. open_call. rewrite Ej. cbn [truthy has_key getitem].
  rewrite El. destruct kv as [|x kv]; [discriminate El|].
  cbn [length Nat.eqb negb].
  destruct j as [| | |t| |]; try (now split).
  now contradiction (Hj t).
Qed.

End EndpointPaths.

(** After the start of the module, the home page says model_loaded exactly
    when both the model and the vectorizer were loaded.  When it says
    false, every request to the categorize endpoint is answered with Model
    not loaded properly and status 500, and nothing is printed or called;
    and it says false exactly when every request to the categorize
    endpoint is answered with status 500.  The home page has status 200
    and the reading of the clock as its time. *)
Theorem home_model_loaded (Vec Label : Type) (round2 : float -> float)
        (load_model : result (Model Vec Label))
        (load_vectorizer : result (Vectorizer Vec))
        (now : str) :
  let state := load_models load_model load_vectorizer in
  let loaded := h_model_loaded (fst (home (fst state) now)) in
  (loaded = true <->
   exists model vectorizer,
     load_model = Ok model /\ load_vectorizer = Ok vectorizer)
  /\ (loaded = false ->
      forall now' req,
        categorize_sms round2 (fst state) (snd state) now' req
        = (model_not_loaded, []))
  /\ (loaded = false <->
      forall now' req,
        status (fst (categorize_sms round2 (fst state) (snd state) now' req))
        = 500)
  /\ snd (home (fst state) now) = 200
  /\ h_time (fst (home (fst state) now)) = now.
Proof.
  cbn zeta.
  assert (E : forall (model : Model Vec Label) (vectorizer : Vectorizer Vec),
             status (fst (categorize_sms round2 (Some model) (Some vectorizer)
                                         [] (Request (Ok (JDict [])))))
             = 400) by reflexivity.
  destruct load_model as [model|e], load_vectorizer as [vectorizer|e'];
    cbn [load_models fst snd home h_model_loaded is_not_none h_time];
    (split; [|split; [|split; [|split; reflexivity]]]).
  - split; [intros _; now exists model, vectorizer|reflexivity].
  - discriminate.
  - split; [discriminate|]. intros H.
    specialize (H [] (Request (Ok (JDict [])))). rewrite E in H.
    discriminate H.
  - split; [discriminate|]. intros [m [v [_ H]]]. discriminate H.
  - reflexivity.
  - split; reflexivity.
  - split; [discriminate|]. intros [m [v [H _]]]. discriminate H.
  - reflexivity.
  - split; reflexivity.
  - split; [discriminate|]. intros [m [v [H _]]]. discriminate H.
  - reflexivity.
  - split; reflexivity.
Qed.

(** A vectorizer that could not be loaded. *)
Lemma home_model_loaded_witness :
  categorize_sms (fun x => x)
    (fst (load_models (Ok stub_model) (Raise (OtherError "no file"))))
    (snd (load_models (Ok stub_model) (Raise (OtherError "no file"))))
    (lit "2026-01-01 10:00:00")
    (text_request (lit "Rs 200 spent on Swiggy order"))
  = (model_not_loaded, []).
Proof.
  apply (proj1 (proj2 (home_model_loaded
                         str str (fun x => x) (Ok stub_model)
                         (Raise (OtherError "no file")) []))).
  reflexivity.
Defined.


(** The stub classifier and a text. *)
Lemma categorize_sms_result_witness :
  extract_amount_from_sms (lit "Rs 200 spent on Swiggy order")
  = Ok (float_of_Z 200)
  /\ lit "Swiggy" = extract_merchant_from_sms (lit "Rs 200 spent on Swiggy order").
Proof.
  destruct (categorize_sms_result
              str str (fun x => x) stub_model stub_vectorizer
              (lit "2026-01-01 10:00:00")
              (text_request (lit "Rs 200 spent on Swiggy order"))
              (lit "Essentials") (float_of_Z 1) (float_of_Z 200)
              (lit "Swiggy") (lit "Rs 200 spent on Swiggy order")
              (lit "2026-01-01 10:00:00"))
    as [_ [_ [Ha [Hm _]]]].
  - vm_compute. reflexivity.
  - now split.
Defined.

(** The body with the number 5 as sms_text. *)
Lemma categorize_sms_not_text_witness :
  status (fst (categorize_sms (fun x => x) (Some stub_model)
                              (Some stub_vectorizer) (lit "2026-01-01 10:00:00")
                              (Request (Ok (JDict [(lit "sms_text", JNum 5)])))))
  = 500.
Proof.
  apply (categorize_sms_not_text
           str str (fun x => x) stub_model stub_vectorizer
           (lit "2026-01-01 10:00:00")
           (Request (Ok (JDict [(lit "sms_text", JNum 5)])))
           [(lit "sms_text", JNum 5)] (JNum 5)).
  - reflexivity.
  - reflexivity.
  - discriminate.
Defined.

(** ** The test endpoint *)

Section TestEndpoint.

Variables Vec Label : Type.
Variable round2 : float -> float.
Variable model : Model Vec Label.

(** One turn of the loop never raises: it gives an entry for its message,
    with the category and the confidence of the pipeline, or an error when
    the pipeline fails. *)
Lemma test_one_entry (vectorizer : option (Vectorizer Vec)) (sms : str)
      (tr : list (event Vec Label)) :
  exists entry tr',
    test_one round2 model vectorizer sms tr = (Ok entry, tr')
    /\ entry_sms entry = sms
    /\ entry_agrees entry (pipeline_result round2 model vectorizer sms).
Proof.
  unfold test_one, try_except, bind, lift, emit, ret, pipeline_result,
    process, and_then.
  destruct vectorizer as [v|]; cbn [attribute_of];
    [|eexists; eexists; now repeat split].
  destruct (transform v [preprocess_text sms]) as [x|e];
    [|eexists; eexists; now repeat split].
  destruct (predict model x) as [labels|e];
    [|eexists; eexists; now repeat split].
  destruct (first_item labels) as [label|e];
    [|eexists; eexists; now repeat split].
  destruct (predict_proba model x) as [rows|e];
    [|eexists; eexists; now repeat split].
  destruct (first_item rows) as [row|e];
    [|eexists; eexists; now repeat split].
  destruct (py_max row) as [p|e];
    [|eexists; eexists; now repeat split].
  destruct (first_match_total patterns sms (fun p H => H)) as [a Ha].
  unfold extract_amount_from_sms. rewrite Ha.
  eexists; eexists; now repeat split.
Qed.

Lemma test_loop_entries (vectorizer : option (Vectorizer Vec))
      (smss : list str) :
  forall acc tr,
  exists new tr',
    test_loop round2 model vectorizer smss acc tr = (Ok (acc ++ new), tr')
    /\ Forall2 (fun entry sms =>
                  entry_sms entry = sms
                  /\ entry_agrees entry (pipeline_result round2 model vectorizer sms))
               new smss.
Proof.
  induction smss as [|sms smss IH]; intros acc tr; cbn [test_loop].
  - exists [], tr. rewrite app_nil_r. split; [reflexivity|constructor].
  - destruct (test_one_entry vectorizer sms tr) as [entry [tr1 [E [H1 H2]]]].
    unfold bind at 1. rewrite E.
    destruct (IH (acc ++ [entry]) tr1) as [new [tr2 [E2 H]]].
    exists (entry :: new), tr2. split.
    + rewrite E2, <- app_assoc. reflexivity.
    + constructor; [now split|exact H].
Qed.

(** With a model, the test endpoint always answers with status 200 and
    model_status working, and with one entry for each of the three
    messages, in their order, whatever the classifier does, even without a
    vectorizer; without a model it answers Model not loaded with status 500
    and calls nothing. *)
Lemma test_api_report (vectorizer : option (Vectorizer Vec)) :
  (exists results,
      fst (test_api round2 (Some model) vectorizer)
      = TestResponse (TestReport results (lit "working")) 200
      /\ map entry_sms results = test_sms)
  /\ test_api round2 (@None (Model Vec Label)) vectorizer
     = (TestResponse (TestFailure (Message "Model not loaded")) 500, []).
Proof.
  split; [|reflexivity]. unfold test_api.
  destruct (test_loop_entries vectorizer test_sms [] []) as [new [tr [E H]]].
  rewrite E. exists new. split; [reflexivity|].
  clear E. induction H as [|e s new smss [Hs _] _ IH]; [reflexivity|].
  cbn [map]. now rewrite Hs, IH.
Qed.

(** For each of its messages the test endpoint reports the category and
    the confidence that the categorize endpoint answers for that message,
    and an error exactly when the categorize endpoint has no result. *)
Lemma test_api_agrees (vectorizer : Vectorizer Vec) (now : str) :
  exists results,
    t_body (fst (test_api round2 (Some model) (Some vectorizer)))
    = TestReport results (lit "working")
    /\ Forall2
         (fun entry sms =>
            entry_sms entry = sms
            /\ entry_agrees entry
                 (extraction_result
                    (fst (categorize_sms round2 (Some model) (Some vectorizer)
                                         now (text_request sms)))))
         results test_sms.
Proof.
  unfold test_api.
  destruct (test_loop_entries (Some vectorizer) test_sms [] [])
    as [new [tr [E H]]].
  rewrite E. exists new. split; [reflexivity|].
  eapply Forall2_impl; [|exact H]. intros entry sms [H1 H2]. split; [exact H1|].
  now rewrite categorize_sms_process.
Qed.

End TestEndpoint.
